(** * tbconfig: tag-driven binding of configuration structs

    A shallow embedding of package [tbconfig] (LoadConfig and its helpers)
    together with the parts of the Go standard library it calls
    ([strings], [strconv], [net/url], [reflect], [os]) and of
    [godotenv.Load].

    Go strings are byte sequences; they are modelled by [string], whose
    characters are the 256 byte values. *)

From Stdlib Require Import ZArith Lia Ascii String.
From stdpp Require Import base option list strings gmap.

Local Open Scope Z_scope.

(** ** Package [strings] *)

Module strings.

(** [strings.HasPrefix(s, prefix)] *)
Definition HasPrefix (s prefix : string) : bool := String.prefix prefix s.

(** [s[n:]] for [n <= len(s)] *)
Fixpoint from (n : nat) (s : string) : string :=
  match n, s with
  | O, _ => s
  | S n', String _ s' => from n' s'
  | S _, EmptyString => EmptyString
  end.

(** [s[:n]] for [n <= len(s)] *)
Fixpoint upto (n : nat) (s : string) : string :=
  match n, s with
  | O, _ => EmptyString
  | S n', String c s' => String c (upto n' s')
  | S _, EmptyString => EmptyString
  end.

(** [strings.TrimPrefix(s, prefix)] *)
Definition TrimPrefix (s prefix : string) : string :=
  if HasPrefix s prefix then from (String.length prefix) s else s.

(** [strings.HasSuffix(s, suffix)] *)
Definition HasSuffix (s suffix : string) : bool :=
  HasPrefix (String.rev s) (String.rev suffix).

(** [strings.Index(s, substr)]: the offset of the first instance of
    [substr] in [s]; [None] stands for -1. *)
Fixpoint Index (s substr : string) : option nat :=
  if HasPrefix s substr then Some O
  else match s with
       | EmptyString => None
       | String _ s' => S <$> Index s' substr
       end.

(** The loop of [genSplit] for a separator that is not empty:
<<
    for i < n {
      m := Index(s, sep)
      if m < 0 { break }
      a[i] = s[:m]
      s = s[m+len(sep):]
      i++
    }
    a[i] = s
>>
    [n] is the number of iterations still allowed. *)
Fixpoint genSplit (n : nat) (s sep : string) : list string :=
  match n with
  | O => [s]
  | S n' =>
      match Index s sep with
      | None => [s]
      | Some m => upto m s :: genSplit n' (from (m + String.length sep) s) sep
      end
  end.

(** [strings.Split(s, sep)] and the sequence [strings.SplitSeq(s, sep)]
    yields, for [sep] not empty.  Go bounds the loop by
    [Count(s, sep)], which is at most [len(s)]; the loop leaves through
    [break] as soon as no separator is left, so the bound [len(s)] gives
    the same slice (lemma [genSplit_bound] below).  The branch of
    [genSplit] for an empty separator (explode into UTF-8 sequences) is not
    modelled: this package never passes an empty separator from the
    binding code. *)
Definition Split (s sep : string) : list string :=
  genSplit (String.length s) s sep.

(** [strings.Trim(s, cutset)] for a cutset of one ASCII byte: all
    leading and trailing instances of the byte are removed. *)
Fixpoint trimLeftByte (c : ascii) (s : string) : string :=
  match s with
  | String a s' => if Ascii.eqb a c then trimLeftByte c s' else s
  | EmptyString => EmptyString
  end.

Definition trimRightByte (c : ascii) (s : string) : string :=
  String.rev (trimLeftByte c (String.rev s)).

Definition Trim1 (s : string) (c : ascii) : string :=
  trimRightByte c (trimLeftByte c s).

(** The white space of [unicode.IsSpace], as UTF-8 byte sequences:
    the six ASCII bytes of [asciiSpace], U+0085, U+00A0, U+1680,
    U+2000..U+200A, U+2028, U+2029, U+202F, U+205F and U+3000. *)
Definition spaces : list string :=
  [ String "009" ""; String "010" ""; String "011" ""; String "012" "";
    String "013" ""; String "032" "";
    String "194" (String "133" ""); String "194" (String "160" "");
    String "225" (String "154" (String "128" ""));
    String "226" (String "128" (String "128" ""));
    String "226" (String "128" (String "129" ""));
    String "226" (String "128" (String "130" ""));
    String "226" (String "128" (String "131" ""));
    String "226" (String "128" (String "132" ""));
    String "226" (String "128" (String "133" ""));
    String "226" (String "128" (String "134" ""));
    String "226" (String "128" (String "135" ""));
    String "226" (String "128" (String "136" ""));
    String "226" (String "128" (String "137" ""));
    String "226" (String "128" (String "138" ""));
    String "226" (String "128" (String "168" ""));
    String "226" (String "128" (String "169" ""));
    String "226" (String "128" (String "175" ""));
    String "226" (String "129" (String "159" ""));
    String "227" (String "128" (String "128" "")) ]%char.

(** The length of the white-space rune [s] starts with, if any. *)
Definition leadingSpace (s : string) : option nat :=
  String.length <$> List.find (HasPrefix s) spaces.

(** The length of the white-space rune [s] ends with, if any.  None of
    the encodings above is a suffix of another, and each is found by
    walking back over its continuation bytes to its start byte, as
    [utf8.DecodeLastRuneInString] does. *)
Definition trailingSpace (s : string) : option nat :=
  String.length <$> List.find (HasSuffix s) spaces.

(** [TrimLeftFunc(s, unicode.IsSpace)]; [n] bounds the number of runes
    removed and is [len(s)] at the call. *)
Fixpoint trimLeftSpace (n : nat) (s : string) : string :=
  match n with
  | O => s
  | S n' =>
      match leadingSpace s with
      | Some k => trimLeftSpace n' (from k s)
      | None => s
      end
  end.

Fixpoint trimRightSpace (n : nat) (s : string) : string :=
  match n with
  | O => s
  | S n' =>
      match trailingSpace s with
      | Some k => trimRightSpace n' (upto (String.length s - k) s)
      | None => s
      end
  end.

(** [strings.TrimSpace(s)]: leading and trailing white space, as
    Unicode defines it, removed.  The ASCII fast path of the Go function
    and its fall-back to [TrimFunc] remove the same bytes. *)
Definition TrimSpace (s : string) : string :=
  let s1 := trimLeftSpace (String.length s) s in
  trimRightSpace (String.length s1) s1.

End strings.

(** ** Package [strconv] *)

Module strconv.

Definition digit (c : ascii) : option Z :=
  let n := Z.of_nat (nat_of_ascii c) in
  if (48 <=? n) && (n <=? 57) then Some (n - 48) else None.

(** The digit loop of [ParseUint] in base 10, on unbounded integers:
    [None] when a byte is not a decimal digit. *)
Fixpoint digits (acc : Z) (s : string) : option Z :=
  match s with
  | EmptyString => Some acc
  | String c s' =>
      match digit c with
      | Some d => digits (acc * 10 + d) s'
      | None => None
      end
  end.

(** [strconv.ParseUint(s, 10, 64)]; [None] is a syntax or range error. *)
Definition ParseUint (s : string) : option Z :=
  match s with
  | EmptyString => None
  | _ =>
      match digits 0 s with
      | Some n => if n <? 2 ^ 64 then Some n else None
      | None => None
      end
  end.

(** [strconv.ParseInt(s, 10, 64)]; [None] is a syntax or range error. *)
Definition ParseInt (s : string) : option Z :=
  match s with
  | EmptyString => None
  | String c s' =>
      let neg := Ascii.eqb c "-" in
      let rest := if Ascii.eqb c "+" || neg then s' else s in
      match ParseUint rest with
      | None => None
      | Some un =>
          let cutoff := 2 ^ 63 in
          if negb neg && (cutoff <=? un) then None
          else if neg && (cutoff <? un) then None
          else Some (if neg then - un else un)
      end
  end.

(** [strconv.Atoi(s)] on a platform whose [int] has 64 bits: its fast
    path and [ParseInt(s, 10, 0)] accept the same strings with the same
    values. *)
Definition Atoi (s : string) : option Z := ParseInt s.

(** [strconv.ParseBool(str)] *)
Definition ParseBool (str : string) : option bool :=
  if bool_decide (str ∈ ["1"; "t"; "T"; "TRUE"; "true"; "True"]) then Some true
  else if bool_decide (str ∈ ["0"; "f"; "F"; "FALSE"; "false"; "False"]) then Some false
  else None.

End strconv.

(** ** Package [net/url] *)

Module url.

(** [shouldEscape(c, encodeQueryComponent)]: letters, digits and
    [-], [_], [.], [~] are left as they are. *)
Definition shouldEscape (c : ascii) : bool :=
  let n := nat_of_ascii c in
  negb (   ((97 <=? n) && (n <=? 122))%nat
        || ((65 <=? n) && (n <=? 90))%nat
        || ((48 <=? n) && (n <=? 57))%nat
        || Ascii.eqb c "-" || Ascii.eqb c "_"
        || Ascii.eqb c "." || Ascii.eqb c "~").

(** [upperhex[i]] for [i < 16] *)
Definition upperhex (i : nat) : ascii :=
  match String.get i "0123456789ABCDEF" with
  | Some c => c
  | None => "0"%char
  end.

(** What the second loop of [escape] writes for the byte [c]. *)
Definition escapeByte (c : ascii) : string :=
  if Ascii.eqb c " " then "+"
  else if shouldEscape c then
    String "%" (String (upperhex (nat_of_ascii c / 16))
               (String (upperhex (nat_of_ascii c mod 16)) ""))
  else String c "".

(** [url.QueryEscape(s)] *)
Fixpoint QueryEscape (s : string) : string :=
  match s with
  | EmptyString => EmptyString
  | String c s' => escapeByte c +:+ QueryEscape s'
  end.

End url.

(** ** Package [reflect] and the heap

    What [LoadConfig] sees of its argument through reflection: the kind of
    the value, the struct a pointer leads to, and for each field of that
    struct its name, whether it can be set, its tag, its type and its
    current value. *)

Module reflect.

Inductive Kind : Set :=
| Invalid | Bool | Int | Int8 | Int16 | Int32 | Int64
| Uint | Uint8 | Uint16 | Uint32 | Uint64 | Uintptr
| Float32 | Float64 | Complex64 | Complex128
| Array | Chan | Func | Interface | Map | Pointer | Slice
| String | Struct | UnsafePointer.

#[global] Instance Kind_eq_dec : EqDecision Kind.
Proof. solve_decision. Defined.

(** [reflect.Type], as far as this package asks: [Name()], [Kind()],
    [Elem().Kind()] (of a slice type; [Invalid] otherwise) and
    [NumMethod()] (of an interface type). *)
Record rtype : Set := {
  TypeName : string;
  TypeKind : Kind;
  ElemKind : Kind;
  NumMethod : nat;
}.

(** The contents of a field.  [VStrings []] is the nil [[]string];
    [VEnv s] is an interface value holding [tbconfig.Env(s)]; [VOpaque]
    stands for a value of any type this package cannot write. *)
Inductive value : Set :=
| VString (s : string)
| VInt (n : Z)
| VBool (b : bool)
| VStrings (l : list string)
| VEnv (s : string)
| VOpaque (n : nat).

(** A field of an addressable struct: [reflect.StructField] and the
    [reflect.Value] of the field.  [Exported] is [PkgPath == ""];
    [TagConfig] is [Tag.Get("config")].  Embedded structs are not
    looked into: a struct is the flat list of its fields. *)
Record field : Set := {
  Name : string;
  Exported : bool;
  TagConfig : string;
  Type_ : rtype;
  Val : value;
}.

(** [field.Kind()] *)
Definition Kind_ (f : field) : Kind := TypeKind (Type_ f).

(** [field.CanSet()] for a field reached through a pointer to its
    struct. *)
Definition CanSet (f : field) : bool := Exported f.

(** [field.Set(v)] and the typed setters: only the contents change. *)
Definition Set_ (f : field) (v : value) : field :=
  {| Name := Name f; Exported := Exported f; TagConfig := TagConfig f;
     Type_ := Type_ f; Val := v |}.

Definition SetString (f : field) (s : string) : field := Set_ f (VString s).
Definition SetBool (f : field) (b : bool) : field := Set_ f (VBool b).

(** The size in bits of a signed integer kind; [int] has 64 bits. *)
Definition bits (k : Kind) : Z :=
  match k with
  | Int8 => 8 | Int16 => 16 | Int32 => 32 | _ => 64
  end.

(** Conversion of an [int64] to the signed type of [w] bits. *)
Definition wrap (w x : Z) : Z :=
  (x + 2 ^ (w - 1)) mod 2 ^ w - 2 ^ (w - 1).

(** [field.SetInt(x)]: [x] is converted to the type of the field. *)
Definition SetInt (f : field) (x : Z) : field :=
  Set_ f (VInt (wrap (bits (Kind_ f)) x)).

Definition loc := nat.

(** What a pointer leads to: a value of some kind; when the kind is
    [Struct], [Fields] are its fields. *)
Record object : Set := {
  ObjKind : Kind;
  Fields : list field;
}.

Abbreviation heap := (gmap loc object).

(** The argument [cfg interface{}]: the nil interface, a value that is
    not a pointer (of kind [k], which is not [Pointer]: a struct passed by
    value, a number, a string, ...), or a pointer ([None] is the nil
    pointer). *)
Inductive iface : Set :=
| INil
| IVal (k : Kind)
| IPtr (p : option loc).

(** [reflect.ValueOf(cfg).Kind()] *)
Definition KindOf (cfg : iface) : Kind :=
  match cfg with
  | INil => Invalid
  | IVal k => k
  | IPtr _ => Pointer
  end.

(** [reflect.ValueOf(cfg).Elem()] for a pointer; [None] is the zero
    Value, whose kind is [Invalid]. *)
Definition Elem (h : heap) (cfg : iface) : option (loc * object) :=
  match cfg with
  | IPtr (Some l) => (fun o => (l, o)) <$> h !! l
  | _ => None
  end.

(** [reflect.ValueOf(cfg).Elem().Kind()] for a pointer *)
Definition ElemKindOf (h : heap) (cfg : iface) : Kind :=
  match Elem h cfg with
  | Some (_, o) => ObjKind o
  | None => Invalid
  end.

End reflect.

(** ** The process environment and [godotenv] *)

Module os.

(** [os.LookupEnv(key)]; no variable has the empty name. *)
Definition LookupEnv (environ : gmap string string) (key : string) : option string :=
  if String.eqb key "" then None else environ !! key.

End os.

Module godotenv.

(** [godotenv.Load(".env")], of the library [github.com/joho/godotenv],
    by its documented behaviour.  [file] is what reading and parsing the
    file gives: [None] when that fails, else its assignments.  A variable
    the environment already has keeps its value; on failure nothing is
    set. *)
Definition Load (file : option (gmap string string)) (environ : gmap string string)
  : option (gmap string string) :=
  (fun assignments => environ ∪ assignments) <$> file.

End godotenv.

(** ** Package [tbconfig] *)

(** [type TransformType string] *)
Abbreviation TransformType := string (only parsing).

(** [ConfigField]: the configuration of one field *)
Record ConfigField : Set := {
  EnvVar : string;
  Default : string;
  Required : bool;
  Transform : TransformType;
  Separator : string;
  Description : string;
}.

Definition EnvLocal : string := "local".
Definition ServiceEnvVarName : string := "NODE_ENV".

Definition TransformURLEscape : TransformType := "url_escape".
Definition TransformHostsNoPorts : TransformType := "hosts_no_ports".

Definition configTagEnv : string := "env:".
Definition configTagDefault : string := "default:".
Definition configTagSep : string := "sep:".
Definition configTagTransform : string := "transform:".
Definition configTagDesc : string := "desc:".
Definition configTagRequired : string := "required".

(** The errors the package builds with [fmt.Errorf], by the place that
    builds them; the formatted message is not modelled. *)
Inductive error : Set :=
| ErrLoadEnvFile                                (* "error loading .env file: %w" *)
| ErrNotPtrToStruct                             (* "config must be a pointer to a struct" *)
| ErrParseTag (fieldName : string) (err : error)   (* "error parsing config tag for field %s: %v" *)
| ErrSetField (fieldName : string) (err : error)   (* "error setting field %s: %v" *)
| ErrRequired (envVar : string)                 (* the required environment variable %s is not set *)
| ErrParseInt (transformedValue : string)       (* "cannot parse %s as int: %v" *)
| ErrParseBool (transformedValue : string)      (* "cannot parse %s as bool: %v" *)
| ErrUnsupportedSlice (t : reflect.rtype)       (* "unsupported slice type: %v" *)
| ErrUnsupportedField (k : reflect.Kind).       (* "unsupported field type: %v" *)

(** [getEnv(key, defaultVal)] *)
Definition getEnv (environ : gmap string string) (key defaultVal : string) : string :=
  match os.LookupEnv environ key with
  | Some value => value
  | None => defaultVal
  end.

(** [applyTransform(value, transform)] *)
Definition applyTransform (value : string) (transform : TransformType) : string :=
  if String.eqb transform TransformURLEscape then url.QueryEscape value
  else if String.eqb transform TransformHostsNoPorts then value
  else value.

(** The body of the loop of [parseConfigTag] for one part. *)
Definition parsePart (config : ConfigField) (part0 : string) : ConfigField :=
  let part := strings.TrimSpace part0 in
  if strings.HasPrefix part configTagEnv then
    {| EnvVar := strings.TrimPrefix part configTagEnv;
       Default := Default config; Required := Required config;
       Transform := Transform config; Separator := Separator config;
       Description := Description config |}
  else if strings.HasPrefix part configTagDefault then
    {| EnvVar := EnvVar config;
       Default := strings.TrimPrefix part configTagDefault;
       Required := Required config;
       Transform := Transform config; Separator := Separator config;
       Description := Description config |}
  else if strings.HasPrefix part configTagSep then
    let sep := strings.TrimPrefix part configTagSep in
    let sep := if strings.HasPrefix sep "'" && strings.HasSuffix sep "'"
               then strings.Trim1 sep "'" else sep in
    {| EnvVar := EnvVar config; Default := Default config;
       Required := Required config; Transform := Transform config;
       Separator := sep;
       Description := Description config |}
  else if strings.HasPrefix part configTagTransform then
    {| EnvVar := EnvVar config; Default := Default config;
       Required := Required config;
       Transform := strings.TrimPrefix part configTagTransform;
       Separator := Separator config;
       Description := Description config |}
  else if strings.HasPrefix part configTagDesc then
    {| EnvVar := EnvVar config; Default := Default config;
       Required := Required config; Transform := Transform config;
       Separator := Separator config;
       Description := strings.TrimPrefix part configTagDesc |}
  else if String.eqb part configTagRequired then
    {| EnvVar := EnvVar config; Default := Default config;
       Required := true; Transform := Transform config;
       Separator := Separator config;
       Description := Description config |}
  else config.

(** [parseConfigTag(tag)]; the error it returns is always nil. *)
Definition parseConfigTag (tag : string) : error + ConfigField :=
  let config := {| EnvVar := ""; Default := ""; Required := false;
                   Transform := ""; Separator := ""; Description := "" |} in
  inr (fold_left parsePart (strings.Split tag ",") config).

(** [setFieldValue], first part (up to the call of [applyTransform]): the
    value of [transformedValue], or the error of a required variable that
    is not set. *)
Definition transformedValue (environ : gmap string string) (config : ConfigField)
  : error + string :=
  let rawValue := getEnv environ (EnvVar config) (Default config) in
  if Required config && String.eqb rawValue "" then
    inl (ErrRequired (EnvVar config))
  else
    inr (applyTransform rawValue (Transform config)).

(** [setFieldValue], second part: the [switch field.Kind()].  The result
    is the field after the assignment; no case writes the field and then
    fails. *)
Definition assign (field : reflect.field) (config : ConfigField) (transformedValue : string)
  : error + reflect.field :=
  match reflect.Kind_ field with
  | reflect.String => inr (reflect.SetString field transformedValue)
  | reflect.Int | reflect.Int8 | reflect.Int16 | reflect.Int32 | reflect.Int64 =>
      if String.eqb transformedValue "" then inr field
      else match strconv.ParseInt transformedValue with
           | None => inl (ErrParseInt transformedValue)
           | Some intVal => inr (reflect.SetInt field intVal)
           end
  | reflect.Bool =>
      if String.eqb transformedValue "" then inr field
      else match strconv.ParseBool transformedValue with
           | None => inl (ErrParseBool transformedValue)
           | Some boolVal => inr (reflect.SetBool field boolVal)
           end
  | reflect.Slice =>
      if decide (reflect.ElemKind (reflect.Type_ field) = reflect.String) then
        let separator := Separator config in
        let separator := if String.eqb separator "" then "," else separator in
        let slice :=
          if negb (String.eqb transformedValue "") then
            let slice := strings.Split transformedValue separator in
            if String.eqb (Transform config) TransformHostsNoPorts then
              map (fun host => hd "" (strings.Split host ":")) slice
            else slice
          else if negb (String.eqb (Default config) "") then
            strings.Split (Default config) separator
          else [] in
        inr (reflect.Set_ field (reflect.VStrings slice))
      else inl (ErrUnsupportedSlice (reflect.Type_ field))
  | k => inl (ErrUnsupportedField k)
  end.

(** [setFieldValue(field, config)] *)
Definition setFieldValue (environ : gmap string string) (field : reflect.field)
    (config : ConfigField) : error + reflect.field :=
  match transformedValue environ config with
  | inl err => inl err
  | inr value => assign field config value
  end.

(** The body of the loop of [loadConfigIntoStruct] for one field: the
    field as the body leaves it, or the error the loop returns. *)
Definition bindField (environ : gmap string string) (field : reflect.field)
  : error + reflect.field :=
  if negb (reflect.CanSet field) then inr field
  else
    let tag := reflect.TagConfig field in
    if String.eqb tag "" then inr field
    else match parseConfigTag tag with
         | inl err => inl (ErrParseTag (reflect.Name field) err)
         | inr config =>
             match setFieldValue environ field config with
             | inl err => inl (ErrSetField (reflect.Name field) err)
             | inr field' => inr field'
             end
         end.

(** The loop of [loadConfigIntoStruct] over the fields, in declaration
    order.  The fields come back as the loop left them: on an error the
    fields before the failing one keep what was written to them. *)
Fixpoint bindFields (environ : gmap string string) (fields : list reflect.field)
  : list reflect.field * option error :=
  match fields with
  | [] => ([], None)
  | field :: rest =>
      match bindField environ field with
      | inl err => (fields, Some err)
      | inr field' =>
          let '(rest', err) := bindFields environ rest in (field' :: rest', err)
      end
  end.

(** [loadConfigIntoStruct(cfg)]: the heap after the call and the error. *)
Definition loadConfigIntoStruct (environ : gmap string string) (h : reflect.heap)
    (cfg : reflect.iface) : reflect.heap * option error :=
  if negb (bool_decide (reflect.KindOf cfg = reflect.Pointer))
     || negb (bool_decide (reflect.ElemKindOf h cfg = reflect.Struct))
  then (h, Some ErrNotPtrToStruct)
  else match reflect.Elem h cfg with
       | None => (h, Some ErrNotPtrToStruct)
       | Some (l, v) =>
           let '(fields, err) := bindFields environ (reflect.Fields v) in
           (<[l := {| reflect.ObjKind := reflect.ObjKind v; reflect.Fields := fields |}]> h, err)
       end.

(** Whether a value of type [Env] can be assigned to a field of type [t]
    whose kind is not [String]: only when [t] is an interface type without
    methods ([Env] has no methods, and a named type other than [Env] itself
    is not directly assignable from it). *)
Definition assignableFromEnv (t : reflect.rtype) : bool :=
  bool_decide (reflect.TypeKind t = reflect.Interface) && Nat.eqb (reflect.NumMethod t) 0.

(** The end of [LoadConfig], for the field [envField] that
    [v.FieldByName("Env")] found: [None] when [envField.Set] panics. *)
Definition setEnvField (env : string) (envField : reflect.field) : option reflect.field :=
  if reflect.CanSet envField then
    if decide (reflect.Kind_ envField = reflect.String) then
      Some (reflect.SetString envField env)
    else if String.eqb (reflect.TypeName (reflect.Type_ envField)) "Env" then
      if assignableFromEnv (reflect.Type_ envField)
      then Some (reflect.Set_ envField (reflect.VEnv env))
      else None
    else Some envField
  else Some envField.

(** [v.FieldByName("Env")] takes the first field of that name; when there
    is none the fields stay as they are. *)
Fixpoint setEnv (env : string) (fields : list reflect.field) : option (list reflect.field) :=
  match fields with
  | [] => Some []
  | f :: rest =>
      if String.eqb (reflect.Name f) "Env"
      then (fun f' => f' :: rest) <$> setEnvField env f
      else (fun rest' => f :: rest') <$> setEnv env rest
  end.

(** What a call leaves: the returned error ([None] is nil), or a panic. *)
Inductive outcome : Set :=
| Return (err : option error)
| Panic.

(** The process environment and the heap. *)
Record state : Set := {
  environ : gmap string string;
  heap : reflect.heap;
}.

(** The beginning of [LoadConfig]: the environment after the file [.env]
    is loaded when [env] is ["local"], or [None] when loading it fails.
    [dotenv] is what reading the file gives (see [godotenv.Load]). *)
Definition bootstrap (dotenv : option (gmap string string)) (env : string)
    (environ : gmap string string) : option (gmap string string) :=
  if String.eqb env "local" then godotenv.Load dotenv environ else Some environ.

(** [LoadConfig(cfg)], run in state [st]. *)
Definition LoadConfig (dotenv : option (gmap string string)) (st : state)
    (cfg : reflect.iface) : state * outcome :=
  let env := getEnv (environ st) ServiceEnvVarName EnvLocal in
  match bootstrap dotenv env (environ st) with
  | None => (st, Return (Some ErrLoadEnvFile))
  | Some environ' =>
      match loadConfigIntoStruct environ' (heap st) cfg with
      | (h, Some err) => ({| environ := environ'; heap := h |}, Return (Some err))
      | (h, None) =>
          match reflect.Elem h cfg with
          | None => ({| environ := environ'; heap := h |}, Panic)
          | Some (l, v) =>
              match setEnv env (reflect.Fields v) with
              | None => ({| environ := environ'; heap := h |}, Panic)
              | Some fields =>
                  ({| environ := environ';
                      heap := <[l := {| reflect.ObjKind := reflect.ObjKind v;
                                        reflect.Fields := fields |}]> h |},
                   Return None)
              end
          end
      end
  end.

(** [GetEnvAsInt(name, defaultVal)] *)
Definition GetEnvAsInt (environ : gmap string string) (name : string) (defaultVal : Z) : Z :=
  let valueStr := getEnv environ name "" in
  match strconv.Atoi valueStr with
  | Some value => value
  | None => defaultVal
  end.

(** [GetEnvAsBool(name, defaultVal)] *)
Definition GetEnvAsBool (environ : gmap string string) (name : string) (defaultVal : bool) : bool :=
  let valStr := getEnv environ name "" in
  match strconv.ParseBool valStr with
  | Some val => val
  | None => defaultVal
  end.

(** ** The struct and the environment of [TestLoadConfig] *)

Definition tString : reflect.rtype :=
  {| reflect.TypeName := "string"; reflect.TypeKind := reflect.String;
     reflect.ElemKind := reflect.Invalid; reflect.NumMethod := 0 |}.
Definition tInt : reflect.rtype :=
  {| reflect.TypeName := "int"; reflect.TypeKind := reflect.Int;
     reflect.ElemKind := reflect.Invalid; reflect.NumMethod := 0 |}.
Definition tBool : reflect.rtype :=
  {| reflect.TypeName := "bool"; reflect.TypeKind := reflect.Bool;
     reflect.ElemKind := reflect.Invalid; reflect.NumMethod := 0 |}.
Definition tStrings : reflect.rtype :=
  {| reflect.TypeName := ""; reflect.TypeKind := reflect.Slice;
     reflect.ElemKind := reflect.String; reflect.NumMethod := 0 |}.

Definition stringField (name tag value : string) : reflect.field :=
  {| reflect.Name := name; reflect.Exported := true; reflect.TagConfig := tag;
     reflect.Type_ := tString; reflect.Val := reflect.VString value |}.
Definition intField (name tag : string) (value : Z) : reflect.field :=
  {| reflect.Name := name; reflect.Exported := true; reflect.TagConfig := tag;
     reflect.Type_ := tInt; reflect.Val := reflect.VInt value |}.
Definition boolField (name tag : string) (value : bool) : reflect.field :=
  {| reflect.Name := name; reflect.Exported := true; reflect.TagConfig := tag;
     reflect.Type_ := tBool; reflect.Val := reflect.VBool value |}.
Definition stringsField (name tag : string) (value : list string) : reflect.field :=
  {| reflect.Name := name; reflect.Exported := true; reflect.TagConfig := tag;
     reflect.Type_ := tStrings; reflect.Val := reflect.VStrings value |}.

Definition scyllaHostsTag : string :=
  "env:SCYLLA_CONTACT_POINTS,sep:',',transform:hosts_no_ports".

(** [&Settings{}] *)
Definition Settings : list reflect.field :=
  [ stringsField "ScyllaHosts" scyllaHostsTag [];
    stringField "ScyllaUsername" "env:SCYLLA_USERNAME" "";
    stringField "ScyllaPassword" "env:SCYLLA_PASSWORD" "";
    stringField "ScyllaDC" "env:SCYLLA_DC" "";
    stringField "RabbitHost" "env:RABBIT_HOST" "";
    stringField "RabbitPassword" "env:RABBIT_PASSWORD,transform:url_escape" "";
    stringField "RabbitPort" "env:RABBIT_PORT" "";
    stringField "RabbitUser" "env:RABBIT_USER" "";
    stringField "RabbitConnectionUrl" "" "";
    stringField "DbHost" "env:DB_HOST" "";
    stringField "DbName" "env:DB_NAME" "";
    stringField "DbPassword" "env:DB_SESSION_PASSWORD,transform:url_escape" "";
    stringField "DbPort" "env:DB_PORT" "";
    stringField "DbUsername" "env:DB_SESSION_USERNAME" "";
    stringField "DbConnectionUrl" "" "";
    stringField "ApiSmartChatUrl" "env:API_SMART_CHAT_URL" "";
    intField "Port" "" 0;
    stringField "SmartChatEmail" "" "";
    stringField "WpUrl" "env:WP_URL" "" ].

Definition testEnviron : gmap string string :=
  list_to_map
    [ ("SCYLLA_CONTACT_POINTS", "host1:9042,host2:9042,host3:9042");
      ("SCYLLA_USERNAME", "user1"); ("SCYLLA_PASSWORD", "pass1");
      ("SCYLLA_DC", "dc1"); ("RABBIT_HOST", "rabbit.local");
      ("RABBIT_PASSWORD", "p@ss w!th sp&cial"); ("RABBIT_PORT", "5672");
      ("RABBIT_USER", "rabbituser"); ("DB_HOST", "db.local");
      ("DB_NAME", "dbname"); ("DB_SESSION_PASSWORD", "db@pass w!th sp&cial");
      ("DB_PORT", "5432"); ("DB_SESSION_USERNAME", "dbuser");
      ("API_SMART_CHAT_URL", "https://api.smartchat.local");
      ("WP_URL", "https://wp.local"); ("NODE_ENV", "test") ].

Definition structAt (l : reflect.loc) (fields : list reflect.field) : reflect.heap :=
  {[ l := {| reflect.ObjKind := reflect.Struct; reflect.Fields := fields |} ]}.

(** ** The specification's words, as definitions to compare the code with *)


(** "split on the descriptor's separator (default [,])" *)
Definition separatorOf (config : ConfigField) : string :=
  if String.eqb (Separator config) "" then "," else Separator config.

(** The kinds of the integer-typed and boolean-typed fields. *)
Definition integerOrBoolean (k : reflect.Kind) : Prop :=
  In k [reflect.Int; reflect.Int8; reflect.Int16; reflect.Int32; reflect.Int64; reflect.Bool].

(** "a mutable reference to a struct": a pointer whose element is a
    struct. *)
Definition bindable (h : reflect.heap) (cfg : reflect.iface) : Prop :=
  reflect.KindOf cfg = reflect.Pointer /\ reflect.ElemKindOf h cfg = reflect.Struct.

(** The value of a hexadecimal digit. *)
Definition unhex (c : ascii) : option nat :=
  let n := nat_of_ascii c in
  if ((48 <=? n) && (n <=? 57))%nat then Some (n - 48)%nat
  else if ((65 <=? n) && (n <=? 70))%nat then Some (n - 55)%nat
  else if ((97 <=? n) && (n <=? 102))%nat then Some (n - 87)%nat
  else None.

(** Decoding of a form value: [+] is a space, [%XX] is the byte [XX];
    [None] when a [%] is not followed by two hexadecimal digits. *)
Fixpoint formDecode (s : string) : option string :=
  match s with
  | EmptyString => Some EmptyString
  | String c rest =>
      if Ascii.eqb c "%" then
        match rest with
        | String a (String b rest') =>
            match unhex a, unhex b with
            | Some x, Some y => String (ascii_of_nat (16 * x + y)) <$> formDecode rest'
            | _, _ => None
            end
        | _ => None
        end
      else if Ascii.eqb c "+" then String " " <$> formDecode rest
      else String c <$> formDecode rest
  end.

(** The bytes an escaped form value is made of: the unreserved
    characters, [+] and the percent-escapes. *)
Definition formByte (c : ascii) : bool :=
  negb (url.shouldEscape c) || Ascii.eqb c "+" || Ascii.eqb c "%".

Fixpoint allBytes (p : ascii -> bool) (s : string) : bool :=
  match s with
  | EmptyString => true
  | String c s' => p c && allBytes p s'
  end.

(** ** Descriptors and fields used as examples *)

(** The descriptor of [ScyllaHosts], as [parseConfigTag] builds it. *)
Definition scyllaHostsConfig : ConfigField :=
  {| EnvVar := "SCYLLA_CONTACT_POINTS"; Default := ""; Required := false;
     Transform := TransformHostsNoPorts; Separator := ""; Description := "" |}.

(** [Port int `config:"env:PORT,required"`] *)
Definition requiredPort : reflect.field := intField "Port" "env:PORT,required" 8080.

Definition requiredPortConfig : ConfigField :=
  {| EnvVar := "PORT"; Default := ""; Required := true;
     Transform := ""; Separator := ""; Description := "" |}.

(** [Port int `config:"env:PORT"`] and [Debug bool `config:"env:DEBUG"`] *)
Definition optionalPort : reflect.field := intField "Port" "env:PORT" 8080.

Definition optionalPortConfig : ConfigField :=
  {| EnvVar := "PORT"; Default := ""; Required := false;
     Transform := ""; Separator := ""; Description := "" |}.

(** [Hosts []string `config:"env:HOSTS,default:h1:1;h2:2,sep:';',transform:hosts_no_ports"`] *)
Definition hostsWithDefault : reflect.field :=
  stringsField "Hosts" "env:HOSTS,default:h1:1;h2:2,sep:';',transform:hosts_no_ports" [].

Definition hostsWithDefaultConfig : ConfigField :=
  {| EnvVar := "HOSTS"; Default := "h1:1;h2:2"; Required := false;
     Transform := TransformHostsNoPorts; Separator := ";"; Description := "" |}.

(** A state whose environment selects no deployment environment. *)
Definition localState : state :=
  {| environ := {[ "HOSTS" := "" ]}; heap := structAt 0%nat [hostsWithDefault] |}.

(** A state whose environment selects [production]. *)
Definition productionState : state :=
  {| environ := {[ "NODE_ENV" := "production" ]}; heap := structAt 0%nat [optionalPort] |}.

(** A struct with a field [Env], and states before and after it is
    bound. *)
Definition withEnv (hosts : list string) (port : Z) (env : string) : list reflect.field :=
  [ stringsField "Hosts" "env:HOSTS,sep:';',transform:hosts_no_ports" hosts;
    intField "Port" "env:PORT" port;
    stringField "Env" "" env ].

Definition unboundState : state :=
  {| environ := {[ "NODE_ENV" := "staging"; "HOSTS" := "a:1;b:2" ]};
     heap := structAt 0%nat (withEnv [] 8080 "") |}.

Definition boundState : state :=
  {| environ := {[ "NODE_ENV" := "staging"; "HOSTS" := "a:1;b:2" ]};
     heap := structAt 0%nat (withEnv ["a"; "b"] 8080 "staging") |}.

(** ** [unicode/utf8], the rest of [strings.Split], [GetEnvAsSlice] *)

Module utf8.

Definition inRange (lo hi : nat) (c : ascii) : bool :=
  ((lo <=? nat_of_ascii c) && (nat_of_ascii c <=? hi))%nat.

(** The table [first] with [acceptRanges]: for a start byte of a sequence
    of more than one byte, the size of the sequence and the range its
    second byte must be in; [None] for an ASCII byte and for a byte that
    starts no sequence. *)
Definition first (s0 : ascii) : option (nat * nat * nat) :=
  let x := nat_of_ascii s0 in
  if (x <? 194)%nat then None
  else if (x <=? 223)%nat then Some (2, 128, 191)%nat
  else if (x =? 224)%nat then Some (3, 160, 191)%nat
  else if (x <=? 236)%nat then Some (3, 128, 191)%nat
  else if (x =? 237)%nat then Some (3, 128, 159)%nat
  else if (x <=? 239)%nat then Some (3, 128, 191)%nat
  else if (x =? 240)%nat then Some (4, 144, 191)%nat
  else if (x <=? 243)%nat then Some (4, 128, 191)%nat
  else if (x =? 244)%nat then Some (4, 128, 143)%nat
  else None.

(** The width that [utf8.DecodeRuneInString(s)] returns: 0 for the empty
    string, 1 for an ASCII byte and for a byte that is not the start of a
    well-formed sequence, else the size of the sequence. *)
Definition DecodeRuneSize (s : string) : nat :=
  match s with
  | EmptyString => 0
  | String s0 rest =>
      match first s0 with
      | None => 1
      | Some (sz, lo, hi) =>
          if (String.length s <? sz)%nat then 1
          else match rest with
               | String s1 rest1 =>
                   if negb (inRange lo hi s1) then 1
                   else if (sz <=? 2)%nat then 2
                   else match rest1 with
                        | String s2 rest2 =>
                            if negb (inRange 128 191 s2) then 1
                            else if (sz <=? 3)%nat then 3
                            else match rest2 with
                                 | String s3 _ =>
                                     if negb (inRange 128 191 s3) then 1 else 4
                                 | EmptyString => 1
                                 end
                        | EmptyString => 1
                        end
               | EmptyString => 1
               end
      end
  end%nat.

End utf8.

Module stringsSplit.

(** [explode(s, -1)]: [s] cut into its UTF-8 sequences, a byte that
    starts no well-formed sequence being a piece by itself.  Go counts the
    runes first and takes the rest of the string as the last piece; that
    rest is the last rune.  [n] bounds the number of pieces and is
    [len(s)] at the call. *)
Fixpoint explode (n : nat) (s : string) : list string :=
  match n with
  | O => []
  | S n' =>
      match s with
      | EmptyString => []
      | _ => strings.upto (utf8.DecodeRuneSize s) s
               :: explode n' (strings.from (utf8.DecodeRuneSize s) s)
      end
  end.

(** [strings.Split(s, sep)] for any separator: [genSplit] explodes the
    string when the separator is empty. *)
Definition Split (s sep : string) : list string :=
  if String.eqb sep "" then explode (String.length s) s
  else strings.Split s sep.

End stringsSplit.

(** [GetEnvAsSlice(name, defaultVal, sep)] *)
Definition GetEnvAsSlice (environ : gmap string string) (name : string)
    (defaultVal : list string) (sep : string) : list string :=
  let valStr := getEnv environ name "" in
  if String.eqb valStr "" then defaultVal
  else stringsSplit.Split valStr sep.

(** "contains no [c]" *)
Definition without (c : ascii) (s : string) : bool :=
  allBytes (fun a => negb (Ascii.eqb a c)) s.

(** The bytes [url.QueryEscape] leaves as they are. *)
Definition unreserved (c : ascii) : bool := negb (url.shouldEscape c).

(** The kinds [setFieldValue] has a case for. *)
Definition supportedKind (k : reflect.Kind) : Prop :=
  In k [reflect.String; reflect.Int; reflect.Int8; reflect.Int16; reflect.Int32;
        reflect.Int64; reflect.Bool; reflect.Slice].

(** [Retries int8 `config:"env:RETRIES"`] *)
Definition retriesField : reflect.field :=
  {| reflect.Name := "Retries"; reflect.Exported := true;
     reflect.TagConfig := "env:RETRIES";
     reflect.Type_ := {| reflect.TypeName := "int8"; reflect.TypeKind := reflect.Int8;
                         reflect.ElemKind := reflect.Invalid; reflect.NumMethod := 0 |};
     reflect.Val := reflect.VInt 0 |}.

Definition retriesConfig : ConfigField :=
  {| EnvVar := "RETRIES"; Default := ""; Required := false;
     Transform := ""; Separator := ""; Description := "" |}.

(** Splitting on one byte, by recursion on the string: the pieces between
    the occurrences of [c]. *)
Fixpoint splitByte (c : ascii) (s : string) : list string :=
  match s with
  | EmptyString => [EmptyString]
  | String a s' =>
      if Ascii.eqb a c then EmptyString :: splitByte c s'
      else match splitByte c s' with
           | piece :: pieces => String a piece :: pieces
           | [] => [String a EmptyString]
           end
  end.

(** Whether [parsePart] has a case for the part. *)
Definition recognised (part0 : string) : bool :=
  let part := strings.TrimSpace part0 in
  strings.HasPrefix part configTagEnv || strings.HasPrefix part configTagDefault
  || strings.HasPrefix part configTagSep || strings.HasPrefix part configTagTransform
  || strings.HasPrefix part configTagDesc || String.eqb part configTagRequired.

(** The strings of a descriptor hold no comma. *)
Definition commaFree (config : ConfigField) : Prop :=
  without "," (EnvVar config) = true /\ without "," (Default config) = true
  /\ without "," (Transform config) = true /\ without "," (Separator config) = true
  /\ without "," (Description config) = true.

(** The kinds of the signed integer fields. *)
Definition integerKind (k : reflect.Kind) : Prop :=
  In k [reflect.Int; reflect.Int8; reflect.Int16; reflect.Int32; reflect.Int64].

(** [Env string `config:"env:APP_ENV"`], in a state where both [APP_ENV]
    and [NODE_ENV] are set. *)
Definition taggedEnvState : state :=
  {| environ := {[ "NODE_ENV" := "staging"; "APP_ENV" := "custom" ]};
     heap := structAt 0%nat [stringField "Env" "env:APP_ENV" ""] |}.

(** [FieldByName("Env")] on the fields of a struct. *)
Definition fieldEnv (fields : list reflect.field) : option reflect.field :=
  List.find (fun f => String.eqb (reflect.Name f) "Env") fields.

(** Unfolds the setters and the projections of a field built by them. *)
Ltac field_projections :=
  unfold reflect.SetString, reflect.SetInt, reflect.SetBool in *;
  unfold reflect.Kind_, reflect.CanSet, reflect.Set_ in *;
  cbn [reflect.Type_ reflect.TypeKind reflect.ElemKind reflect.Name
       reflect.Exported reflect.TagConfig reflect.Val reflect.TypeName] in *.

(** * Properties *)

(** ** [strings] *)

Lemma length_from n s : String.length (strings.from n s) = (String.length s - n)%nat.
Proof.
  revert s; induction n as [|n IH]; intros [|c s]; simpl; auto with arith.
Qed.

Lemma Index_empty sep : sep <> "" -> strings.Index "" sep = None.
Proof. destruct sep; [congruence | reflexivity]. Qed.

(** The bound of the loop of [genSplit] is never what ends it. *)
Lemma genSplit_bound sep n m s :
  sep <> "" ->
  (String.length s <= n)%nat -> (String.length s <= m)%nat ->
  strings.genSplit n s sep = strings.genSplit m s sep.
Proof.
  intros Hsep. revert m s.
  assert (Hlen : (1 <= String.length sep)%nat)
    by (destruct sep; [congruence | simpl; lia]).
  assert (Hnil : forall k, strings.genSplit k "" sep = [""]).
  { intros [|k]; cbn [strings.genSplit]; [reflexivity|]. now rewrite Index_empty. }
  induction n as [|n IH]; intros m s Hn Hm.
  - destruct s; [|simpl in Hn; lia]. now rewrite !Hnil.
  - destruct m as [|m].
    + destruct s; [|simpl in Hm; lia]. now rewrite !Hnil.
    + cbn [strings.genSplit].
      destruct (strings.Index s sep) as [k|]; [|reflexivity].
      f_equal. apply IH; rewrite length_from; lia.
Qed.



(** ** [net/url] *)

Lemma QueryEscape_nonempty s : url.QueryEscape s = "" -> s = "".
Proof.
  destruct s as [|c s]; [reflexivity|]. simpl. unfold url.escapeByte.
  destruct (Ascii.eqb c " "); [discriminate|].
  destruct (url.shouldEscape c); discriminate.
Qed.

Lemma formDecode_escapeByte c t :
  formDecode (url.escapeByte c +:+ t) = String c <$> formDecode t.
Proof.
  destruct c as [[] [] [] [] [] [] [] []]; reflexivity.
Qed.

Lemma formDecode_QueryEscape s : formDecode (url.QueryEscape s) = Some s.
Proof.
  induction s as [|c s IH]; [reflexivity|].
  cbn [url.QueryEscape]. now rewrite formDecode_escapeByte, IH.
Qed.

Lemma allBytes_app p s t : allBytes p (s +:+ t) = allBytes p s && allBytes p t.
Proof. induction s as [|c s IH]; simpl; [reflexivity|]. now rewrite IH, andb_assoc. Qed.

Lemma escapeByte_formBytes c : allBytes formByte (url.escapeByte c) = true.
Proof. destruct c as [[] [] [] [] [] [] [] []]; reflexivity. Qed.

Lemma QueryEscape_formBytes s : allBytes formByte (url.QueryEscape s) = true.
Proof.
  induction s as [|c s IH]; [reflexivity|].
  cbn [url.QueryEscape]. now rewrite allBytes_app, escapeByte_formBytes, IH.
Qed.

(** ** Resolution of the raw value *)

Lemma getEnv_unset environ key defaultVal :
  os.LookupEnv environ key = None -> getEnv environ key defaultVal = defaultVal.
Proof. unfold getEnv. now intros ->. Qed.

Lemma applyTransform_empty value transform :
  applyTransform value transform = "" <-> value = "".
Proof.
  unfold applyTransform. split.
  - destruct (String.eqb transform TransformURLEscape);
      [apply QueryEscape_nonempty|].
    now destruct (String.eqb transform TransformHostsNoPorts).
  - intros ->. now repeat destruct (String.eqb _ _).
Qed.

(** [transformedValue] is empty exactly when the field is not required and
    its raw value is empty: for a required field the empty raw value is
    refused before any transform. *)
Lemma transformedValue_empty environ config :
  transformedValue environ config = inr "" <->
  Required config = false /\ getEnv environ (EnvVar config) (Default config) = "".
Proof.
  unfold transformedValue.
  destruct (Required config); simpl.
  - destruct (String.eqb_spec (getEnv environ (EnvVar config) (Default config)) "") as [E|E].
    + split; [discriminate | intros [? _]; discriminate].
    + split; [|intros [? _]; discriminate].
      intros [=H]. apply applyTransform_empty in H. contradiction.
  - split.
    + intros [=H]. apply applyTransform_empty in H. auto.
    + intros [_ ->]. f_equal. now apply applyTransform_empty.
Qed.

Lemma setFieldValue_required environ field config :
  Required config = true ->
  os.LookupEnv environ (EnvVar config) = None ->
  Default config = "" ->
  setFieldValue environ field config = inl (ErrRequired (EnvVar config)).
Proof.
  intros Hreq Hunset Hdef.
  unfold setFieldValue, transformedValue.
  now rewrite (getEnv_unset _ _ _ Hunset), Hreq, Hdef.
Qed.

(** ** The loop over the fields *)

Lemma bindFields_app environ before before' rest :
  bindFields environ before = (before', None) ->
  bindFields environ (before ++ rest) =
    (before' ++ fst (bindFields environ rest), snd (bindFields environ rest)).
Proof.
  revert before'. induction before as [|f before IH]; intros before' H.
  - injection H as <-. simpl. now destruct (bindFields environ rest).
  - cbn [app bindFields] in *.
    destruct (bindField environ f) as [err|f']; [discriminate|].
    destruct (bindFields environ before) as [r e].
    injection H as <- ->. now rewrite (IH r eq_refl).
Qed.

(** ** The claims about [setFieldValue] *)



(** C2. A field that can be set, whose annotation parses to a descriptor
    with [required], whose variable is not in the environment and whose
    default is empty: [setFieldValue] fails with the error of the missing
    required variable, and the loop of [loadConfigIntoStruct], when the
    fields before it were bound without error, stops at this field with
    that error, wrapped with the name of the field. *)
Theorem missing_required environ before before' field after config :
  bindFields environ before = (before', None) ->
  reflect.CanSet field = true ->
  reflect.TagConfig field <> "" ->
  parseConfigTag (reflect.TagConfig field) = inr config ->
  Required config = true ->
  os.LookupEnv environ (EnvVar config) = None ->
  Default config = "" ->
  setFieldValue environ field config = inl (ErrRequired (EnvVar config))
  /\ bindFields environ (before ++ field :: after) =
       (before' ++ field :: after,
        Some (ErrSetField (reflect.Name field) (ErrRequired (EnvVar config)))).
Proof.
  intros Hbefore Hset Htag Hparse Hreq Hunset Hdef.
  pose proof (setFieldValue_required environ field config Hreq Hunset Hdef) as Hfail.
  split; [exact Hfail|].
  rewrite (bindFields_app _ _ _ _ Hbefore).
  cbn [bindFields]. unfold bindField. rewrite Hset. cbn [negb].
  apply String.eqb_neq in Htag. rewrite Htag, Hparse, Hfail. reflexivity.
Qed.

Lemma missing_required_witness :
  bindFields ∅ [stringField "Name" "env:NAME" "old"; requiredPort; optionalPort] =
    ([stringField "Name" "env:NAME" ""; requiredPort; optionalPort],
     Some (ErrSetField "Port" (ErrRequired "PORT"))).
Proof.
  apply (missing_required ∅ [stringField "Name" "env:NAME" "old"]
           [stringField "Name" "env:NAME" ""] requiredPort [optionalPort]
           requiredPortConfig).
  - vm_compute. reflexivity.
  - reflexivity.
  - discriminate.
  - vm_compute. reflexivity.
  - reflexivity.
  - vm_compute. reflexivity.
  - reflexivity.
Defined.

(** C3. The tag of [ScyllaHosts], which writes the separator as [sep:','],
    parses to a descriptor whose separator is empty, not [","]: the tag is
    split on commas first, so the directive is the part [sep:'], whose
    value ['] both starts and ends with a quote and is trimmed to nothing;
    the part ['] that follows is no directive.  [setFieldValue] then takes
    its default separator. *)
Theorem quoted_comma_separator_lost :
  strings.Split scyllaHostsTag "," =
    ["env:SCYLLA_CONTACT_POINTS"; "sep:'"; "'"; "transform:hosts_no_ports"]
  /\ parseConfigTag scyllaHostsTag = inr scyllaHostsConfig
  /\ Separator scyllaHostsConfig = ""
  /\ separatorOf scyllaHostsConfig = ",".
Proof. repeat split; vm_compute; reflexivity. Qed.

(** A quoted separator of one byte other than the comma and the quote is
    the separator of the descriptor. *)
Lemma quoted_separator c :
  c <> ","%char -> c <> "'"%char ->
  exists config, parseConfigTag ("sep:'" +:+ String c "'") = inr config
                 /\ Separator config = String c "".
Proof.
  intros Hcomma Hquote.
  destruct c as [[] [] [] [] [] [] [] []];
    try contradiction; eexists; split; reflexivity.
Qed.

(** C4. Once [transformedValue] is computed (the check of a required
    variable has passed): when it is empty, a field of an integer kind or
    of kind [Bool] is returned as it was, without error; a field of kind
    [String] is assigned the value as it is, empty or not. *)
Theorem empty_value_keeps_integer_and_boolean environ field config value :
  transformedValue environ config = inr value ->
  (integerOrBoolean (reflect.Kind_ field) -> value = "" ->
   setFieldValue environ field config = inr field)
  /\ (reflect.Kind_ field = reflect.String ->
      setFieldValue environ field config = inr (reflect.SetString field value)).
Proof.
  intros Hvalue. unfold setFieldValue. rewrite Hvalue. unfold assign. split.
  - intros Hkind ->. unfold integerOrBoolean in Hkind. simpl in Hkind.
    destruct Hkind as [<-|[<-|[<-|[<-|[<-|[<-|[]]]]]]]; reflexivity.
  - intros ->. reflexivity.
Qed.

Lemma empty_value_keeps_integer_and_boolean_witness :
  setFieldValue ∅ optionalPort optionalPortConfig = inr optionalPort
  /\ setFieldValue ∅ (boolField "Debug" "env:DEBUG" true) optionalPortConfig =
       inr (boolField "Debug" "env:DEBUG" true)
  /\ setFieldValue ∅ (stringField "Host" "env:HOST" "old") optionalPortConfig =
       inr (stringField "Host" "env:HOST" "").
Proof.
  assert (H : transformedValue ∅ optionalPortConfig = inr "") by (vm_compute; reflexivity).
  split; [|split].
  - apply (proj1 (empty_value_keeps_integer_and_boolean ∅ optionalPort _ "" H));
      [unfold integerOrBoolean; simpl; auto | reflexivity].
  - apply (proj1 (empty_value_keeps_integer_and_boolean ∅ (boolField "Debug" "env:DEBUG" true)
                    _ "" H)); [unfold integerOrBoolean; simpl; auto 10 | reflexivity].
  - apply (proj2 (empty_value_keeps_integer_and_boolean ∅ (stringField "Host" "env:HOST" "old")
                    _ "" H)); reflexivity.
Defined.

(** C6. [url_escape] is the form-value escaping: it is defined on every
    string, its result is made of unreserved characters, [+] and
    percent-escapes only and decodes to the input; a space becomes [+] and
    the reserved characters become percent-escapes;
    ["p@ss w!th sp&cial"] becomes ["p%40ss+w%21th+sp%26cial"]. *)
Theorem url_escape_form_value :
  applyTransform "p@ss w!th sp&cial" TransformURLEscape = "p%40ss+w%21th+sp%26cial"
  /\ (forall value, exists escaped,
        applyTransform value TransformURLEscape = escaped
        /\ allBytes formByte escaped = true
        /\ formDecode escaped = Some value)
  /\ map url.escapeByte (list_ascii_of_string " $&+,/:;=?@!") =
       ["+"; "%24"; "%26"; "%2B"; "%2C"; "%2F"; "%3A"; "%3B"; "%3D"; "%3F"; "%40"; "%21"].
Proof.
  split; [reflexivity|]. split; [|reflexivity].
  intros value. exists (url.QueryEscape value).
  split; [reflexivity|].
  split; [apply QueryEscape_formBytes | apply formDecode_QueryEscape].
Qed.



(** The descriptor above is the one the tag of the field parses to; and
    when the variable is not set at all, the default is the resolved value
    and goes the way of any other value, ports cut. *)
Example hostsWithDefault_parsed :
  parseConfigTag (reflect.TagConfig hostsWithDefault) = inr hostsWithDefaultConfig.
Proof. vm_compute. reflexivity. Qed.

Example default_as_resolved_value :
  setFieldValue ∅ hostsWithDefault hostsWithDefaultConfig =
    inr (reflect.Set_ hostsWithDefault (reflect.VStrings ["h1"; "h2"])).
Proof. vm_compute. reflexivity. Qed.

(** ** The claims about [loadConfigIntoStruct] and [LoadConfig] *)

Lemma not_bindable_check h cfg :
  ~ bindable h cfg ->
  negb (bool_decide (reflect.KindOf cfg = reflect.Pointer))
  || negb (bool_decide (reflect.ElemKindOf h cfg = reflect.Struct)) = true.
Proof.
  intros Hnot. unfold bindable in Hnot.
  destruct (decide (reflect.KindOf cfg = reflect.Pointer)) as [Hk|Hk].
  - destruct (decide (reflect.ElemKindOf h cfg = reflect.Struct)) as [He|He].
    + tauto.
    + rewrite (bool_decide_eq_false_2 _ He). apply orb_true_r.
  - now rewrite (bool_decide_eq_false_2 _ Hk).
Qed.

Lemma loadConfigIntoStruct_not_bindable environ h cfg :
  ~ bindable h cfg ->
  loadConfigIntoStruct environ h cfg = (h, Some ErrNotPtrToStruct).
Proof.
  intros Hnot. unfold loadConfigIntoStruct.
  now rewrite (not_bindable_check _ _ Hnot).
Qed.

(** C8. For an argument that is not a pointer to a struct,
    [loadConfigIntoStruct] returns the error "config must be a pointer to
    a struct" and leaves the heap as it was; so does [LoadConfig] once the
    environment file is dealt with, and in no case does [LoadConfig] change
    the heap. *)
Theorem not_bindable_rejected dotenv st cfg :
  ~ bindable (heap st) cfg ->
  loadConfigIntoStruct (environ st) (heap st) cfg = (heap st, Some ErrNotPtrToStruct)
  /\ heap (fst (LoadConfig dotenv st cfg)) = heap st
  /\ (forall environ',
        bootstrap dotenv (getEnv (environ st) ServiceEnvVarName EnvLocal) (environ st)
          = Some environ' ->
        LoadConfig dotenv st cfg =
          ({| environ := environ'; heap := heap st |}, Return (Some ErrNotPtrToStruct))).
Proof.
  intros Hnot. split; [now apply loadConfigIntoStruct_not_bindable|].
  unfold LoadConfig.
  destruct (bootstrap dotenv _ (environ st)) as [environ'|].
  - rewrite (loadConfigIntoStruct_not_bindable environ' _ _ Hnot).
    split; [reflexivity|]. now intros ? [= <-].
  - split; [reflexivity|]. discriminate.
Qed.

Lemma not_bindable_rejected_witness :
  LoadConfig None productionState (reflect.IVal reflect.Struct) =
    (productionState, Return (Some ErrNotPtrToStruct)).
Proof.
  apply (not_bindable_rejected None productionState (reflect.IVal reflect.Struct)).
  - intros [Hkind _]. discriminate Hkind.
  - reflexivity.
Defined.

(** C9. When the variable [NODE_ENV] is not set or is ["local"] and the
    file [.env] fails to load, [LoadConfig] returns the error of the load
    and changes nothing, whatever its argument: also for an argument that
    is not a pointer to a struct, whose check is not reached. *)
Theorem bootstrap_before_target_check st cfg :
  os.LookupEnv (environ st) ServiceEnvVarName = None
  \/ os.LookupEnv (environ st) ServiceEnvVarName = Some "local" ->
  LoadConfig None st cfg = (st, Return (Some ErrLoadEnvFile))
  /\ snd (LoadConfig None st cfg) <> Return (Some ErrNotPtrToStruct).
Proof.
  intros Hsel.
  assert (H : LoadConfig None st cfg = (st, Return (Some ErrLoadEnvFile))).
  { unfold LoadConfig, getEnv. destruct Hsel as [-> | ->]; reflexivity. }
  rewrite H. split; [reflexivity | discriminate].
Qed.

Lemma bootstrap_before_target_check_witness :
  LoadConfig None localState (reflect.IVal reflect.Int) =
    (localState, Return (Some ErrLoadEnvFile))
  /\ ~ bindable (heap localState) (reflect.IVal reflect.Int).
Proof.
  split.
  - apply (bootstrap_before_target_check localState (reflect.IVal reflect.Int)).
    left. vm_compute. reflexivity.
  - intros [Hkind _]. discriminate Hkind.
Defined.

(** ** The auxiliary lookups *)

(** C10. [GetEnvAsInt] returns the default of the caller when the
    variable is not set and when its value is not a base-10 integer, the
    empty string included; its result is an integer in every case. *)
Theorem GetEnvAsInt_default environ name defaultVal :
  os.LookupEnv environ name = None
  \/ (exists valueStr, os.LookupEnv environ name = Some valueStr
                       /\ strconv.Atoi valueStr = None) ->
  GetEnvAsInt environ name defaultVal = defaultVal
  /\ strconv.Atoi "" = None.
Proof.
  intros H. split; [|reflexivity].
  unfold GetEnvAsInt, getEnv.
  destruct H as [-> | (valueStr & -> & ->)]; reflexivity.
Qed.

Lemma GetEnvAsInt_default_witness :
  GetEnvAsInt {[ "PORT" := "80a"; "EMPTY" := "" ]} "PORT" 8080 = 8080
  /\ GetEnvAsInt {[ "PORT" := "80a"; "EMPTY" := "" ]} "EMPTY" 8080 = 8080
  /\ GetEnvAsInt {[ "PORT" := "80a"; "EMPTY" := "" ]} "TIMEOUT" 8080 = 8080.
Proof.
  split; [|split].
  - apply (GetEnvAsInt_default {[ "PORT" := "80a"; "EMPTY" := "" ]} "PORT" 8080).
    right. exists "80a". split; vm_compute; reflexivity.
  - apply (GetEnvAsInt_default {[ "PORT" := "80a"; "EMPTY" := "" ]} "EMPTY" 8080).
    right. exists "". split; vm_compute; reflexivity.
  - apply (GetEnvAsInt_default {[ "PORT" := "80a"; "EMPTY" := "" ]} "TIMEOUT" 8080).
    left. vm_compute. reflexivity.
Defined.

(** ** Binding a second time *)

Lemma Set_Val f : reflect.Set_ f (reflect.Val f) = f.
Proof. now destruct f. Qed.

Lemma Set_Set f w v : reflect.Set_ (reflect.Set_ f w) v = reflect.Set_ f v.
Proof. reflexivity. Qed.

(** What [assign] writes does not depend on what the field held; when it
    writes nothing, it writes nothing whatever the field holds. *)
Lemma assign_rebind f config value f1 :
  assign f config value = inr f1 ->
  f1 = reflect.Set_ f (reflect.Val f1)
  /\ ((forall w, assign (reflect.Set_ f w) config value = inr f1)
      \/ (f1 = f /\ forall w, assign (reflect.Set_ f w) config value
                              = inr (reflect.Set_ f w))).
Proof.
  unfold assign. field_projections.
  destruct (reflect.TypeKind (reflect.Type_ f)) eqn:K;
    try (intros H; discriminate H).
  - (* Bool *)
    destruct (String.eqb value "").
    + intros [= <-]. split; [exact (eq_sym (Set_Val _))|]. right. now split.
    + destruct (strconv.ParseBool value); [|discriminate].
      intros [= <-]. split; [reflexivity|]. now left.
  - destruct (String.eqb value "").
    + intros [= <-]. split; [exact (eq_sym (Set_Val _))|]. right. now split.
    + destruct (strconv.ParseInt value); [|discriminate].
      intros [= <-]. split; [reflexivity|]. now left.
  - destruct (String.eqb value "").
    + intros [= <-]. split; [exact (eq_sym (Set_Val _))|]. right. now split.
    + destruct (strconv.ParseInt value); [|discriminate].
      intros [= <-]. split; [reflexivity|]. now left.
  - destruct (String.eqb value "").
    + intros [= <-]. split; [exact (eq_sym (Set_Val _))|]. right. now split.
    + destruct (strconv.ParseInt value); [|discriminate].
      intros [= <-]. split; [reflexivity|]. now left.
  - destruct (String.eqb value "").
    + intros [= <-]. split; [exact (eq_sym (Set_Val _))|]. right. now split.
    + destruct (strconv.ParseInt value); [|discriminate].
      intros [= <-]. split; [reflexivity|]. now left.
  - destruct (String.eqb value "").
    + intros [= <-]. split; [exact (eq_sym (Set_Val _))|]. right. now split.
    + destruct (strconv.ParseInt value); [|discriminate].
      intros [= <-]. split; [reflexivity|]. now left.
  - (* Slice *)
    destruct (decide _); [|discriminate].
    intros [= <-]. split; [reflexivity|]. now left.
  - (* String *)
    intros [= <-]. split; [reflexivity|]. now left.
Qed.

Lemma bindField_rebind environ f f1 :
  bindField environ f = inr f1 ->
  f1 = reflect.Set_ f (reflect.Val f1)
  /\ ((forall w, bindField environ (reflect.Set_ f w) = inr f1)
      \/ (f1 = f /\ forall w, bindField environ (reflect.Set_ f w)
                              = inr (reflect.Set_ f w))).
Proof.
  unfold bindField, setFieldValue. field_projections.
  destruct (negb (reflect.Exported f)).
  { intros [= <-]. split; [exact (eq_sym (Set_Val _))|]. right. now split. }
  destruct (String.eqb (reflect.TagConfig f) "").
  { intros [= <-]. split; [exact (eq_sym (Set_Val _))|]. right. now split. }
  destruct (parseConfigTag (reflect.TagConfig f)) as [err|config]; [discriminate|].
  destruct (transformedValue environ config) as [err|value]; [discriminate|].
  destruct (assign f config value) as [err|f'] eqn:A; [discriminate|].
  intros [= <-].
  destruct (assign_rebind _ _ _ _ A) as [Hstatic [Hwrite | [-> Hkeep]]];
    field_projections.
  - split; [exact Hstatic|]. left. intros w. now rewrite Hwrite.
  - split; [exact Hstatic|]. right. split; [reflexivity|].
    intros w. now rewrite Hkeep.
Qed.

Lemma bindField_idempotent environ f f1 :
  bindField environ f = inr f1 -> bindField environ f1 = inr f1.
Proof.
  intros H. destruct (bindField_rebind _ _ _ H) as [Hstatic [Hwrite | [-> Hkeep]]].
  - rewrite Hstatic at 1. apply Hwrite.
  - rewrite <- (Set_Val f) at 1. rewrite Hkeep. now rewrite Set_Val.
Qed.

Lemma bindFields_idempotent environ fields fields1 :
  bindFields environ fields = (fields1, None) ->
  bindFields environ fields1 = (fields1, None).
Proof.
  revert fields1. induction fields as [|f rest IH]; intros fields1 H.
  - now injection H as <-.
  - cbn [bindFields] in H.
    destruct (bindField environ f) as [err|f1] eqn:F; [discriminate|].
    destruct (bindFields environ rest) as [rest1 e] eqn:R.
    injection H as <- ->.
    cbn [bindFields]. now rewrite (bindField_idempotent _ _ _ F), (IH _ eq_refl).
Qed.

Lemma setEnvField_rebind env f1 f2 :
  setEnvField env f1 = Some f2 ->
  f2 = reflect.Set_ f1 (reflect.Val f2)
  /\ setEnvField env f2 = Some f2.
Proof.
  destruct f1 as [name exported tag typ val].
  unfold setEnvField. field_projections.
  destruct exported.
  - destruct (decide _) as [K|K].
    + intros [= <-]. field_projections.
      destruct (decide _); [now split | contradiction].
    + destruct (String.eqb _ "Env") eqn:N.
      * destruct (assignableFromEnv typ) eqn:A; [|intros H; discriminate H].
        intros [= <-]. field_projections. rewrite N, A.
        destruct (decide _); [contradiction | now split].
      * intros [= <-]. field_projections. rewrite N.
        destruct (decide _); [contradiction | now split].
  - intros [= <-]. now split.
Qed.

(** The fields a successful call leaves, bound again at the same
    environment and with the same environment name: the loop succeeds and
    the assignment of the field [Env] gives the same fields again. *)
Lemma rebind_fields environ env fields fields1 fields2 :
  bindFields environ fields = (fields1, None) ->
  setEnv env fields1 = Some fields2 ->
  exists fields3,
    bindFields environ fields2 = (fields3, None)
    /\ setEnv env fields3 = Some fields2.
Proof.
  revert fields1 fields2.
  induction fields as [|f rest IH]; intros fields1 fields2 Hbind Hset.
  - injection Hbind as <-. injection Hset as <-. now exists [].
  - cbn [bindFields] in Hbind.
    destruct (bindField environ f) as [err|f1] eqn:F; [discriminate|].
    destruct (bindFields environ rest) as [rest1 e] eqn:R.
    injection Hbind as <- ->.
    cbn [setEnv] in Hset.
    destruct (bindField_rebind _ _ _ F) as [Hstatic Hcases].
    destruct (String.eqb (reflect.Name f1) "Env") eqn:N.
    + destruct (setEnvField env f1) as [f2|] eqn:E; [|discriminate].
      injection Hset as <-.
      destruct (setEnvField_rebind _ _ _ E) as [Hstatic2 Hidem].
      assert (Hf2 : f2 = reflect.Set_ f (reflect.Val f2))
        by (rewrite Hstatic2, Hstatic; reflexivity).
      assert (Hname : reflect.Name f2 = reflect.Name f1)
        by (rewrite Hstatic2; reflexivity).
      cbn [bindFields]. rewrite (bindFields_idempotent _ _ _ R).
      destruct Hcases as [Hwrite | [-> Hkeep]].
      * exists (f1 :: rest1). rewrite Hf2 at 1. rewrite Hwrite.
        split; [reflexivity|]. cbn [setEnv]. now rewrite N, E.
      * exists (f2 :: rest1). rewrite Hf2 at 1. rewrite Hkeep, <- Hf2.
        split; [reflexivity|]. cbn [setEnv]. now rewrite Hname, N, Hidem.
    + destruct (setEnv env rest1) as [rest2|] eqn:E; [|discriminate].
      injection Hset as <-.
      destruct (IH _ _ eq_refl E) as (rest3 & Hbind3 & Hset3).
      exists (f1 :: rest3). cbn [bindFields].
      rewrite (bindField_idempotent _ _ _ F), Hbind3.
      split; [reflexivity|]. cbn [setEnv]. now rewrite N, Hset3.
Qed.

Lemma loadConfigIntoStruct_inv environ h cfg h1 :
  loadConfigIntoStruct environ h cfg = (h1, None) ->
  exists l v fields1,
    cfg = reflect.IPtr (Some l)
    /\ h !! l = Some v
    /\ bindFields environ (reflect.Fields v) = (fields1, None)
    /\ h1 = <[l := {| reflect.ObjKind := reflect.ObjKind v;
                      reflect.Fields := fields1 |}]> h.
Proof.
  unfold loadConfigIntoStruct.
  destruct (_ || _); [intros H; discriminate H|].
  destruct cfg as [|k|[l|]]; try (intros H; discriminate H).
  cbn [reflect.Elem]. destruct (h !! l) as [v|] eqn:L; [|intros H; discriminate H].
  cbn [fmap option_fmap option_map].
  destruct (bindFields environ (reflect.Fields v)) as [fields1 e] eqn:B.
  intros [= <- ->]. now exists l, v, fields1.
Qed.

Lemma loadConfigIntoStruct_struct environ h l v :
  h !! l = Some v ->
  reflect.ObjKind v = reflect.Struct ->
  loadConfigIntoStruct environ h (reflect.IPtr (Some l)) =
    (<[l := {| reflect.ObjKind := reflect.ObjKind v;
               reflect.Fields := fst (bindFields environ (reflect.Fields v)) |}]> h,
     snd (bindFields environ (reflect.Fields v))).
Proof.
  intros L K. unfold loadConfigIntoStruct, reflect.ElemKindOf.
  cbn [reflect.KindOf reflect.Elem]. rewrite L.
  cbn [fmap option_fmap option_map]. rewrite K.
  rewrite !bool_decide_eq_true_2 by reflexivity. cbn [negb orb].
  now destruct (bindFields environ (reflect.Fields v)).
Qed.

Lemma loadConfigIntoStruct_kind environ h cfg h1 l v :
  loadConfigIntoStruct environ h cfg = (h1, None) ->
  cfg = reflect.IPtr (Some l) -> h !! l = Some v ->
  reflect.ObjKind v = reflect.Struct.
Proof.
  intros H -> L. unfold loadConfigIntoStruct, reflect.ElemKindOf in H.
  cbn [reflect.KindOf reflect.Elem] in H. rewrite L in H.
  cbn [fmap option_fmap option_map] in H.
  destruct (decide (reflect.ObjKind v = reflect.Struct)) as [K|K]; [exact K|].
  rewrite (bool_decide_eq_false_2 _ K), orb_true_r in H. discriminate H.
Qed.

(** Loading the file a second time sets nothing new. *)
Lemma bootstrap_again dotenv env environ environ' :
  bootstrap dotenv env environ = Some environ' ->
  bootstrap dotenv env environ' = Some environ'.
Proof.
  unfold bootstrap, godotenv.Load. destruct (String.eqb env "local"); [|congruence].
  destruct dotenv as [assignments|]; [|intros H; discriminate H].
  cbn [fmap option_fmap option_map]. intros [= <-].
  now rewrite <- (assoc_L (∪)), (idemp_L (∪)).
Qed.

(** C5. Binding is idempotent: a call of [LoadConfig] that succeeded,
    made again on the record it left and with the environment it left
    reading as before (the name of the deployment environment is the
    same), succeeds and leaves the record, with the rest of the state, as
    the first call left it. *)
Theorem rebinding_idempotent dotenv st cfg st1 :
  LoadConfig dotenv st cfg = (st1, Return None) ->
  getEnv (environ st1) ServiceEnvVarName EnvLocal =
    getEnv (environ st) ServiceEnvVarName EnvLocal ->
  LoadConfig dotenv st1 cfg = (st1, Return None).
Proof.
  unfold LoadConfig at 1.
  set (env := getEnv (environ st) ServiceEnvVarName EnvLocal).
  destruct (bootstrap dotenv env (environ st)) as [environ'|] eqn:B;
    [|intros H; discriminate H].
  destruct (loadConfigIntoStruct environ' (heap st) cfg) as [h1 [err|]] eqn:L;
    [intros H; discriminate H|].
  destruct (loadConfigIntoStruct_inv _ _ _ _ L) as (l & v & fields1 & -> & Hl & Hbind & ->).
  pose proof (loadConfigIntoStruct_kind _ _ _ _ _ _ L eq_refl Hl) as K.
  cbn [reflect.Elem]. rewrite lookup_insert_eq.
  cbn [fmap option_fmap option_map reflect.Fields reflect.ObjKind].
  destruct (setEnv env fields1) as [fields2|] eqn:E; [|intros H; discriminate H].
  intros [= <-]. cbn [environ heap]. intros Henv.
  destruct (rebind_fields _ _ _ _ _ Hbind E) as (fields3 & Hbind3 & Hset3).
  unfold LoadConfig. cbn [environ heap]. rewrite Henv. fold env.
  rewrite (bootstrap_again _ _ _ _ B).
  rewrite !insert_insert_eq.
  erewrite loadConfigIntoStruct_struct;
    [|apply lookup_insert_eq | exact K].
  cbn [reflect.Fields reflect.ObjKind]. rewrite Hbind3. cbn [fst snd].
  cbn [reflect.Elem]. rewrite lookup_insert_eq.
  cbn [fmap option_fmap option_map reflect.Fields reflect.ObjKind].
  rewrite Hset3. now rewrite !insert_insert_eq.
Qed.

Lemma rebinding_idempotent_witness :
  LoadConfig None boundState (reflect.IPtr (Some 0%nat)) = (boundState, Return None).
Proof.
  apply (rebinding_idempotent None unboundState (reflect.IPtr (Some 0%nat)) boundState).
  - vm_compute. reflexivity.
  - reflexivity.
Defined.

(** The loop alone, at one environment, is idempotent on the heap. *)
Lemma loadConfigIntoStruct_idempotent environ h cfg h1 :
  loadConfigIntoStruct environ h cfg = (h1, None) ->
  loadConfigIntoStruct environ h1 cfg = (h1, None).
Proof.
  intros L.
  destruct (loadConfigIntoStruct_inv _ _ _ _ L) as (l & v & fields1 & -> & Hl & Hbind & ->).
  pose proof (loadConfigIntoStruct_kind _ _ _ _ _ _ L eq_refl Hl) as K.
  erewrite loadConfigIntoStruct_struct; [|apply lookup_insert_eq | exact K].
  cbn [reflect.Fields reflect.ObjKind].
  rewrite (bindFields_idempotent _ _ _ Hbind). cbn [fst snd].
  now rewrite insert_insert_eq.
Qed.

(** The environment is not fixed when the file [.env] itself sets
    [NODE_ENV]: the first call reads the name ["local"] before it loads the
    file, the second reads the name the file has set, and the field [Env]
    differs. *)
Example rebinding_after_selector_change :
  let dotenv := Some {[ "NODE_ENV" := "production" ]} in
  let cfg := reflect.IPtr (Some 0%nat) in
  let st := {| environ := ∅; heap := structAt 0%nat [stringField "Env" "" ""] |} in
  let st1 := {| environ := {[ "NODE_ENV" := "production" ]};
                heap := structAt 0%nat [stringField "Env" "" "local"] |} in
  let st2 := {| environ := {[ "NODE_ENV" := "production" ]};
                heap := structAt 0%nat [stringField "Env" "" "production"] |} in
  LoadConfig dotenv st cfg = (st1, Return None)
  /\ LoadConfig dotenv st1 cfg = (st2, Return None).
Proof. split; vm_compute; reflexivity. Qed.

(** ** [TestLoadConfig] *)

Example TestLoadConfig :
  let '(fields, err) := bindFields testEnviron Settings in
  err = None
  /\ map reflect.Val fields =
       [ reflect.VStrings ["host1"; "host2"; "host3"];
         reflect.VString "user1"; reflect.VString "pass1"; reflect.VString "dc1";
         reflect.VString "rabbit.local"; reflect.VString "p%40ss+w%21th+sp%26cial";
         reflect.VString "5672"; reflect.VString "rabbituser"; reflect.VString "";
         reflect.VString "db.local"; reflect.VString "dbname";
         reflect.VString "db%40pass+w%21th+sp%26cial";
         reflect.VString "5432"; reflect.VString "dbuser"; reflect.VString "";
         reflect.VString "https://api.smartchat.local"; reflect.VInt 0;
         reflect.VString ""; reflect.VString "https://wp.local" ].
Proof. vm_compute. split; reflexivity. Qed.

(** * Further properties *)

(** ** Cutting and joining strings *)

Lemma append_cons c (a b : string) : String c a +:+ b = String c (a +:+ b).
Proof. reflexivity. Qed.

Lemma append_nil_l (a : string) : "" +:+ a = a.
Proof. reflexivity. Qed.

Lemma upto_from n s : strings.upto n s +:+ strings.from n s = s.
Proof.
  revert s; induction n as [|n IH]; intros [|c s]; cbn [strings.upto strings.from];
    try reflexivity.
  now rewrite append_cons, IH.
Qed.

Lemma append_nil_r s : s +:+ "" = s.
Proof. induction s as [|c s IH]; [reflexivity | now rewrite append_cons, IH]. Qed.

Lemma append_assoc (a b c : string) : (a +:+ b) +:+ c = a +:+ (b +:+ c).
Proof. induction a as [|x a IH]; [reflexivity | now rewrite !append_cons, IH]. Qed.

Lemma HasPrefix_from s p :
  strings.HasPrefix s p = true -> s = p +:+ strings.from (String.length p) s.
Proof.
  unfold strings.HasPrefix. revert s.
  induction p as [|a p IH]; intros s H; [reflexivity|].
  destruct s as [|b s]; [discriminate H|].
  cbn [String.prefix String.length strings.from] in H |- *.
  destruct (ascii_dec a b) as [->|]; [|discriminate H].
  now rewrite append_cons, <- (IH s H).
Qed.

Lemma from_from n m s : strings.from n (strings.from m s) = strings.from (m + n) s.
Proof.
  revert s; induction m as [|m IH]; intros s; [reflexivity|].
  destruct s as [|c s]; [now destruct n | apply IH].
Qed.

(** Where [Index] finds the separator, the string is what is before it,
    the separator and what is after it. *)
Lemma Index_cut s sep m :
  strings.Index s sep = Some m ->
  s = strings.upto m s +:+ sep +:+ strings.from (m + String.length sep) s.
Proof.
  revert m. induction s as [|c s IH]; intros m; cbn [strings.Index].
  - destruct (strings.HasPrefix "" sep) eqn:P; [|discriminate].
    intros [= <-]. now apply HasPrefix_from in P.
  - destruct (strings.HasPrefix (String c s) sep) eqn:P.
    + intros [= <-]. now apply HasPrefix_from in P.
    + destruct (strings.Index s sep) as [k|]; [|discriminate].
      intros [= <-]. cbn [strings.upto strings.from Nat.add].
      now rewrite append_cons, <- (IH k eq_refl).
Qed.

Lemma genSplit_nonempty n s sep : strings.genSplit n s sep <> [].
Proof.
  destruct n; cbn; [discriminate|].
  destruct (strings.Index s sep); discriminate.
Qed.

Lemma concat_cons sep x xs :
  xs <> [] -> String.concat sep (x :: xs) = x +:+ sep +:+ String.concat sep xs.
Proof. destruct xs; [congruence | reflexivity]. Qed.

(** Joining the pieces with the separator gives the string back,
    whatever the bound of the loop. *)
Lemma genSplit_concat n s sep : String.concat sep (strings.genSplit n s sep) = s.
Proof.
  revert s. induction n as [|n IH]; intros s; [reflexivity|].
  cbn [strings.genSplit].
  destruct (strings.Index s sep) as [m|] eqn:I; [|reflexivity].
  rewrite concat_cons by apply genSplit_nonempty.
  rewrite IH. symmetry. now apply Index_cut.
Qed.




Lemma Index_byte_cons a c s :
  strings.Index (String a s) (String c "") =
    if Ascii.eqb a c then Some O else S <$> strings.Index s (String c "").
Proof.
  cbn [strings.Index strings.HasPrefix String.prefix].
  destruct (ascii_dec c a) as [->|Hne].
  - rewrite Ascii.eqb_refl. now destruct s.
  - destruct (Ascii.eqb_spec a c) as [->|_]; [congruence | reflexivity].
Qed.

Lemma splitByte_nonempty c s : splitByte c s <> [].
Proof.
  destruct s as [|a s]; cbn; [discriminate|].
  destruct (Ascii.eqb a c); [discriminate|].
  destruct (splitByte c s); discriminate.
Qed.

Lemma genSplit_None n s sep :
  strings.Index s sep = None -> strings.genSplit n s sep = [s].
Proof. intros I. destruct n; cbn [strings.genSplit]; [reflexivity | now rewrite I]. Qed.

(** [strings.Split] on a separator of one byte is [splitByte]. *)
Lemma genSplit_splitByte c n s :
  (String.length s <= n)%nat ->
  strings.genSplit n s (String c "") = splitByte c s.
Proof.
  revert n. induction s as [|a s IH]; intros n Hn.
  - destruct n; reflexivity.
  - destruct n as [|n]; [cbn in Hn; lia|]. cbn [String.length] in Hn.
    cbn [strings.genSplit splitByte]. rewrite Index_byte_cons.
    destruct (Ascii.eqb a c).
    + cbn [strings.upto strings.from Nat.add String.length].
      rewrite IH by lia. reflexivity.
    + rewrite <- (IH (String.length s)) by lia.
      destruct (strings.Index s (String c "")) as [m|] eqn:I;
        cbn [fmap option_fmap option_map].
      * destruct s as [|b s]; [discriminate I|].
        cbn [String.length strings.genSplit]. rewrite I.
        cbn [strings.upto strings.from Nat.add String.length]. f_equal.
        apply genSplit_bound; [discriminate | rewrite length_from; cbn in *; lia ..].
      * now rewrite (genSplit_None _ _ _ I).
Qed.

Lemma Split_splitByte c s : strings.Split s (String c "") = splitByte c s.
Proof. unfold strings.Split. now apply genSplit_splitByte. Qed.

Lemma splitByte_app c s t :
  splitByte c (s +:+ String c t) = splitByte c s ++ splitByte c t.
Proof.
  induction s as [|a s IH]; rewrite ?append_cons, ?append_nil_l; cbn [splitByte].
  - now rewrite Ascii.eqb_refl.
  - rewrite IH. destruct (Ascii.eqb a c); [reflexivity|].
    destruct (splitByte c s) eqn:E; [now apply splitByte_nonempty in E | reflexivity].
Qed.

Lemma splitByte_without c s : without c s = true -> splitByte c s = [s].
Proof.
  unfold without. induction s as [|a s IH]; cbn; [reflexivity|].
  destruct (Ascii.eqb a c); cbn; [discriminate|].
  intros H. now rewrite (IH H).
Qed.

Lemma splitByte_pieces c s : Forall (fun piece => without c piece = true) (splitByte c s).
Proof.
  unfold without. induction s as [|a s IH]; cbn.
  - now repeat constructor.
  - destruct (Ascii.eqb a c) eqn:E; [now constructor|].
    destruct (splitByte c s) as [|piece pieces]; [now repeat constructor; cbn; rewrite E|].
    inversion IH as [|? ? Hp Hps]; subst.
    constructor; [cbn; now rewrite E, Hp | exact Hps].
Qed.

(** ** Parsing a tag *)

Lemma allBytes_from p n s : allBytes p s = true -> allBytes p (strings.from n s) = true.
Proof.
  revert s; induction n as [|n IH]; intros [|c s]; cbn; auto.
  intros [_ H]%andb_true_iff. now apply IH.
Qed.

Lemma allBytes_upto p n s : allBytes p s = true -> allBytes p (strings.upto n s) = true.
Proof.
  revert s; induction n as [|n IH]; intros [|c s]; cbn; auto.
  intros [Hc H]%andb_true_iff. now rewrite Hc, IH.
Qed.

Lemma allBytes_rev_app p s t :
  allBytes p (String.rev_app s t) = allBytes p s && allBytes p t.
Proof.
  revert t. induction s as [|c s IH]; intros t; cbn; [reflexivity|].
  rewrite IH. cbn. destruct (p c), (allBytes p s); reflexivity.
Qed.

Lemma allBytes_rev p s : allBytes p (String.rev s) = allBytes p s.
Proof. unfold String.rev. rewrite allBytes_rev_app. cbn. apply andb_true_r. Qed.

Lemma allBytes_trimLeftByte p c s :
  allBytes p s = true -> allBytes p (strings.trimLeftByte c s) = true.
Proof.
  induction s as [|a s IH]; cbn; [reflexivity|].
  destruct (Ascii.eqb a c); [|exact id].
  intros [_ H]%andb_true_iff. now apply IH.
Qed.

Lemma allBytes_Trim1 p c s : allBytes p s = true -> allBytes p (strings.Trim1 s c) = true.
Proof.
  intros H. unfold strings.Trim1, strings.trimRightByte.
  rewrite allBytes_rev. apply allBytes_trimLeftByte.
  rewrite allBytes_rev. now apply allBytes_trimLeftByte.
Qed.

Lemma allBytes_TrimPrefix p s prefix :
  allBytes p s = true -> allBytes p (strings.TrimPrefix s prefix) = true.
Proof.
  intros H. unfold strings.TrimPrefix.
  destruct (strings.HasPrefix s prefix); [now apply allBytes_from | exact H].
Qed.

Lemma allBytes_TrimSpace p s : allBytes p s = true -> allBytes p (strings.TrimSpace s) = true.
Proof.
  assert (L : forall n t, allBytes p t = true -> allBytes p (strings.trimLeftSpace n t) = true).
  { induction n as [|n IH]; intros t H; cbn [strings.trimLeftSpace]; [exact H|].
    destruct (strings.leadingSpace t); [|exact H]. now apply IH, allBytes_from. }
  assert (R : forall n t, allBytes p t = true -> allBytes p (strings.trimRightSpace n t) = true).
  { induction n as [|n IH]; intros t H; cbn [strings.trimRightSpace]; [exact H|].
    destruct (strings.trailingSpace t); [|exact H]. now apply IH, allBytes_upto. }
  intros H. unfold strings.TrimSpace. now apply R, L.
Qed.

Lemma parsePart_commaFree config part :
  commaFree config -> without "," part = true -> commaFree (parsePart config part).
Proof.
  unfold commaFree, without. intros (He & Hd & Ht & Hs & Hx) Hp.
  pose proof (allBytes_TrimSpace _ _ Hp) as Hq.
  unfold parsePart.
  repeat match goal with
         | |- context [if ?b then _ else _] => destruct b
         end;
    cbn [EnvVar Default Transform Separator Description];
    repeat split;
    auto using allBytes_TrimPrefix, allBytes_Trim1.
Qed.

Lemma parsePart_unrecognised config part :
  recognised part = false -> parsePart config part = config.
Proof.
  unfold recognised, parsePart. intros H.
  repeat (apply orb_false_iff in H; destruct H as [H ?]).
  now repeat match goal with E : _ = false |- _ => rewrite E; clear E end.
Qed.

Lemma Split_comma_app s t :
  strings.Split (s +:+ "," +:+ t) "," = strings.Split s "," ++ strings.Split t ",".
Proof. rewrite !Split_splitByte. apply splitByte_app. Qed.

(** X1. A tag with one more directive at its end parses to the
    descriptor of the tag, updated by that directive alone: the directives
    act from left to right, a later one replacing what an earlier one of
    its kind has set. *)
Theorem directive_appended tag part config :
  without "," part = true ->
  parseConfigTag tag = inr config ->
  parseConfigTag (tag +:+ "," +:+ part) = inr (parsePart config part).
Proof.
  intros Hpart [= <-]. unfold parseConfigTag. f_equal.
  rewrite Split_comma_app, fold_left_app, Split_splitByte.
  now rewrite (splitByte_without _ _ Hpart).
Qed.

Lemma directive_appended_witness :
  parseConfigTag ("env:A,default:x" +:+ "," +:+ " env:B ") =
    inr {| EnvVar := "B"; Default := "x"; Required := false;
           Transform := ""; Separator := ""; Description := "" |}.
Proof.
  apply (directive_appended "env:A,default:x" " env:B "
           {| EnvVar := "A"; Default := "x"; Required := false;
              Transform := ""; Separator := ""; Description := "" |}).
  - reflexivity.
  - vm_compute. reflexivity.
Defined.

(** X2. A directive that [parseConfigTag] has no case for changes
    nothing, wherever it stands among the directives of the tag. *)
Theorem unknown_directive_ignored before part after :
  without "," part = true ->
  recognised part = false ->
  parseConfigTag (before +:+ "," +:+ part +:+ "," +:+ after)
    = parseConfigTag (before +:+ "," +:+ after)
  /\ parseConfigTag (part +:+ "," +:+ after) = parseConfigTag after
  /\ parseConfigTag (before +:+ "," +:+ part) = parseConfigTag before.
Proof.
  intros Hpart Hun. unfold parseConfigTag.
  pose proof (splitByte_without _ _ Hpart) as Hone.
  rewrite !Split_comma_app, !fold_left_app, !Split_splitByte, Hone.
  cbn [fold_left]. now rewrite !parsePart_unrecognised.
Qed.

Lemma unknown_directive_ignored_witness :
  parseConfigTag ("env:A" +:+ "," +:+ "json:a" +:+ "," +:+ "required")
    = parseConfigTag ("env:A" +:+ "," +:+ "required").
Proof.
  apply (unknown_directive_ignored "env:A" "json:a" "required"); reflexivity.
Defined.

(** X3. No string of a parsed descriptor holds a comma, the tag being
    cut at its commas before anything else: the separator of a descriptor
    is never [","], and a default never a list with commas. *)
Theorem descriptor_without_comma tag config :
  parseConfigTag tag = inr config ->
  commaFree config /\ Separator config <> "," .
Proof.
  intros [= <-].
  assert (H : commaFree (fold_left parsePart (strings.Split tag ",")
                {| EnvVar := ""; Default := ""; Required := false;
                   Transform := ""; Separator := ""; Description := "" |})).
  { rewrite Split_splitByte.
    pose proof (splitByte_pieces "," tag) as Hpieces.
    assert (H0 : commaFree {| EnvVar := ""; Default := ""; Required := false;
                   Transform := ""; Separator := ""; Description := "" |})
      by (repeat split).
    revert H0. generalize {| EnvVar := ""; Default := ""; Required := false;
                   Transform := ""; Separator := ""; Description := "" |}.
    induction Hpieces as [|part parts Hpart _ IH]; intros config H0; [exact H0|].
    cbn [fold_left]. apply IH. now apply parsePart_commaFree. }
  split; [exact H|].
  destruct H as (_ & _ & _ & Hs & _). intros E. rewrite E in Hs. discriminate Hs.
Qed.

Lemma descriptor_without_comma_witness :
  commaFree {| EnvVar := "HOSTS"; Default := "a"; Required := false;
               Transform := ""; Separator := ""; Description := "" |}
  /\ Separator {| EnvVar := "HOSTS"; Default := "a"; Required := false;
                  Transform := ""; Separator := ""; Description := "" |} <> ",".
Proof.
  apply (descriptor_without_comma "env:HOSTS,default:a,b,sep:','").
  vm_compute. reflexivity.
Defined.

(** ** [setFieldValue] *)

Lemma assign_not_required field config value envVar :
  assign field config value <> inl (ErrRequired envVar).
Proof.
  unfold assign.
  destruct (reflect.Kind_ field);
    repeat match goal with
           | |- context [if ?b then _ else _] => destruct b
           | |- context [match ?x with Some _ => _ | None => _ end] => destruct x
           end; discriminate.
Qed.

(** X4. [setFieldValue] returns the error of a required variable exactly
    when the descriptor is required and the variable is set to the empty
    string, or is not set while the default is empty: a default satisfies
    the requirement of a variable that is not set, and does not satisfy it
    for a variable that is set to nothing. *)
Theorem required_error_exactly environ field config envVar :
  setFieldValue environ field config = inl (ErrRequired envVar) <->
  envVar = EnvVar config /\ Required config = true
  /\ (os.LookupEnv environ (EnvVar config) = Some ""
      \/ (os.LookupEnv environ (EnvVar config) = None /\ Default config = "")).
Proof.
  unfold setFieldValue, transformedValue, getEnv. split.
  - destruct (Required config); cbn [andb].
    + destruct (os.LookupEnv environ (EnvVar config)) as [v|].
      * destruct (String.eqb_spec v "") as [->|_].
        -- intros [= <-]. auto.
        -- intros H. now apply assign_not_required in H.
      * destruct (String.eqb_spec (Default config) "") as [E|_].
        -- intros [= <-]. auto.
        -- intros H. now apply assign_not_required in H.
    + intros H. now apply assign_not_required in H.
  - intros (-> & -> & [-> | [-> ->]]); reflexivity.
Qed.

(** X5. [setFieldValue] succeeds only on a field of kind [String], of a
    signed integer kind, of kind [Bool], or of kind [Slice] with elements
    of kind [String]: unsigned integers, floats, maps, structs and pointers
    among others are refused. *)
Theorem bound_fields_are_supported environ field config field' :
  setFieldValue environ field config = inr field' ->
  supportedKind (reflect.Kind_ field)
  /\ (reflect.Kind_ field = reflect.Slice ->
      reflect.ElemKind (reflect.Type_ field) = reflect.String).
Proof.
  unfold setFieldValue, assign, supportedKind.
  destruct (transformedValue environ config) as [err|value]; [discriminate|].
  destruct (reflect.Kind_ field); try discriminate;
    try (intros _; split; [cbn; auto 10 | discriminate]).
  destruct (decide _) as [E|_]; [|discriminate].
  intros _. split; [cbn; auto 10 | now intros _].
Qed.

Lemma bound_fields_are_supported_witness :
  supportedKind (reflect.Kind_ retriesField)
  /\ (reflect.Kind_ retriesField = reflect.Slice ->
      reflect.ElemKind (reflect.Type_ retriesField) = reflect.String).
Proof.
  apply (bound_fields_are_supported {[ "RETRIES" := "3" ]} retriesField retriesConfig
           (reflect.Set_ retriesField (reflect.VInt 3))).
  vm_compute. reflexivity.
Defined.

Lemma digit_bound c d : strconv.digit c = Some d -> 0 <= d <= 9.
Proof.
  unfold strconv.digit.
  match goal with |- context [if ?b then _ else _] => destruct b eqn:E end;
    [|discriminate].
  intros [= <-]. apply andb_true_iff in E. lia.
Qed.

Lemma digits_nonneg s acc n : 0 <= acc -> strconv.digits acc s = Some n -> 0 <= n.
Proof.
  revert acc. induction s as [|c s IH]; intros acc Hacc; cbn.
  - now intros [= <-].
  - destruct (strconv.digit c) as [d|] eqn:D; [|discriminate].
    apply digit_bound in D. apply IH. lia.
Qed.

(** What [ParseInt] accepts is a 64-bit signed integer. *)
Lemma ParseInt_range s n : strconv.ParseInt s = Some n -> - 2 ^ 63 <= n < 2 ^ 63.
Proof.
  unfold strconv.ParseInt. destruct s as [|c s]; [discriminate|]. cbv zeta.
  match goal with
  | |- context [strconv.ParseUint ?r] =>
      generalize r; intros rest;
      destruct (strconv.ParseUint rest) as [un|] eqn:U; [|discriminate]
  end.
  assert (0 <= un).
  { unfold strconv.ParseUint in U. destruct rest as [|a rest]; [discriminate|].
    destruct (strconv.digits 0 (String a rest)) as [k|] eqn:D; [|discriminate].
    destruct (k <? 2 ^ 64); [|discriminate]. injection U as <-.
    now apply (digits_nonneg (String a rest) 0 k). }
  destruct (Ascii.eqb c "-"); cbn [negb andb].
  - destruct (2 ^ 63 <? un) eqn:E; [discriminate|]. intros [= <-]. lia.
  - destruct (2 ^ 63 <=? un) eqn:E; [discriminate|]. intros [= <-]. lia.
Qed.

Lemma wrap_spec w x :
  0 < w ->
  - 2 ^ (w - 1) <= reflect.wrap w x < 2 ^ (w - 1)
  /\ (exists q, reflect.wrap w x = x + q * 2 ^ w)
  /\ (- 2 ^ (w - 1) <= x < 2 ^ (w - 1) -> reflect.wrap w x = x).
Proof.
  intros Hw. unfold reflect.wrap.
  assert (E : 2 ^ w = 2 * 2 ^ (w - 1)).
  { replace w with (Z.succ (w - 1)) at 1 by lia. apply Z.pow_succ_r. lia. }
  assert (P : 0 < 2 ^ (w - 1)) by (apply Z.pow_pos_nonneg; lia).
  pose proof (Z.mod_pos_bound (x + 2 ^ (w - 1)) (2 ^ w)) as B.
  pose proof (Z.div_mod (x + 2 ^ (w - 1)) (2 ^ w)) as D.
  repeat split; try lia.
  - exists (- ((x + 2 ^ (w - 1)) / 2 ^ w)). lia.
  - intros R. rewrite Z.mod_small; lia.
Qed.

(** X6. A field of a signed integer kind whose value parses is set to
    the parsed 64-bit integer converted to the type of the field: the
    number stored is in the range of that type and differs from the parsed
    one by a multiple of 2 to the size; it is the parsed one when that is in
    range, and no error is returned when it is not. *)
Theorem integer_field_converted environ field config value intVal :
  integerKind (reflect.Kind_ field) ->
  transformedValue environ config = inr value ->
  value <> "" ->
  strconv.ParseInt value = Some intVal ->
  exists stored,
    setFieldValue environ field config = inr (reflect.Set_ field (reflect.VInt stored))
    /\ - 2 ^ (reflect.bits (reflect.Kind_ field) - 1) <= stored
         < 2 ^ (reflect.bits (reflect.Kind_ field) - 1)
    /\ (exists q, stored = intVal + q * 2 ^ reflect.bits (reflect.Kind_ field))
    /\ (- 2 ^ (reflect.bits (reflect.Kind_ field) - 1) <= intVal
         < 2 ^ (reflect.bits (reflect.Kind_ field) - 1) -> stored = intVal)
    /\ (reflect.bits (reflect.Kind_ field) = 64 -> stored = intVal).
Proof.
  intros Hkind Hvalue Hne Hparse.
  exists (reflect.wrap (reflect.bits (reflect.Kind_ field)) intVal).
  assert (Hw : 0 < reflect.bits (reflect.Kind_ field))
    by (destruct (reflect.Kind_ field); cbn; lia).
  destruct (wrap_spec _ intVal Hw) as (Hrange & Hcong & Hid).
  split; [|repeat split; try tauto; try lia].
  - unfold setFieldValue. rewrite Hvalue. unfold assign.
    apply String.eqb_neq in Hne.
    unfold integerKind in Hkind. cbn in Hkind.
    destruct Hkind as [K|[K|[K|[K|[K|[]]]]]];
      rewrite <- K, Hne, Hparse; unfold reflect.SetInt; now rewrite <- K.
  - intros E. apply Hid. rewrite E. apply (ParseInt_range _ _ Hparse).
Qed.

Lemma integer_field_converted_witness :
  exists stored,
    setFieldValue {[ "RETRIES" := "300" ]} retriesField retriesConfig
      = inr (reflect.Set_ retriesField (reflect.VInt stored))
    /\ - 2 ^ (8 - 1) <= stored < 2 ^ (8 - 1)
    /\ (exists q, stored = 300 + q * 2 ^ 8)
    /\ (- 2 ^ (8 - 1) <= 300 < 2 ^ (8 - 1) -> stored = 300)
    /\ (8 = 64 -> stored = 300).
Proof.
  apply (integer_field_converted {[ "RETRIES" := "300" ]} retriesField retriesConfig
           "300" 300).
  - unfold integerKind. cbn. auto.
  - vm_compute. reflexivity.
  - discriminate.
  - vm_compute. reflexivity.
Defined.









(** ** [GetEnvAsSlice] *)

Lemma DecodeRuneSize_pos c s : (1 <= utf8.DecodeRuneSize (String c s))%nat.
Proof.
  unfold utf8.DecodeRuneSize.
  repeat match goal with
         | |- context [match ?x with Some _ => _ | None => _ end] => destruct x
         | |- context [let (_, _) := ?x in _] => destruct x
         | |- context [if ?b then _ else _] => destruct b
         | |- context [match ?x with EmptyString => _ | String _ _ => _ end] => destruct x
         end; lia.
Qed.

Lemma explode_concat n s :
  (String.length s <= n)%nat -> String.concat "" (stringsSplit.explode n s) = s.
Proof.
  revert s. induction n as [|n IH]; intros s Hn.
  - destruct s; [reflexivity | cbn in Hn; lia].
  - destruct s as [|c s]; [reflexivity|].
    cbn [stringsSplit.explode].
    pose proof (DecodeRuneSize_pos c s) as Hpos.
    set (size := utf8.DecodeRuneSize (String c s)) in *.
    assert (Hrest : (String.length (strings.from size (String c s)) <= n)%nat)
      by (rewrite length_from; cbn in *; lia).
    specialize (IH _ Hrest).
    destruct (stringsSplit.explode n (strings.from size (String c s))) as [|x xs] eqn:E.
    + cbn [String.concat] in *. rewrite <- (upto_from size (String c s)) at 2.
      now rewrite <- IH, append_nil_r.
    + rewrite concat_cons by discriminate. rewrite IH.
      cbn [String.append]. apply upto_from.
Qed.

Lemma explode_nonempty n c s : stringsSplit.explode (S n) (String c s) <> [].
Proof. discriminate. Qed.

(** X9. [GetEnvAsSlice] returns the default of the caller, as it is, when
    the variable is not set or is empty; from any other value it returns at
    least one element, and the elements joined by the separator are the
    value, for every separator (the empty one cuts the value into its
    UTF-8 sequences). *)
Theorem GetEnvAsSlice_joins_to_value environ name defaultVal sep :
  (getEnv environ name "" = "" ->
   GetEnvAsSlice environ name defaultVal sep = defaultVal)
  /\ (getEnv environ name "" <> "" ->
      GetEnvAsSlice environ name defaultVal sep <> []
      /\ String.concat sep (GetEnvAsSlice environ name defaultVal sep)
         = getEnv environ name "").
Proof.
  unfold GetEnvAsSlice. split.
  - intros ->. reflexivity.
  - intros Hne. apply String.eqb_neq in Hne as Hneb. rewrite Hneb.
    unfold stringsSplit.Split, strings.Split.
    destruct (String.eqb_spec sep "") as [->|Hsep].
    + split; [|now apply explode_concat].
      destruct (getEnv environ name "") as [|c s]; [congruence|].
      apply explode_nonempty.
    + split; [apply genSplit_nonempty | apply genSplit_concat].
Qed.




(** ** The loop over the fields, the heap and the environment *)

(** X11. The loop returns an error exactly when some field fails after
    the fields before it were bound: the error is that of this first
    failing field, the fields before it keep what was written to them, the
    failing field and the fields after it are left as they were. *)
Theorem first_error_stops_the_loop environ fields fields' err :
  bindFields environ fields = (fields', Some err) <->
  exists before before' field after,
    fields = before ++ field :: after
    /\ bindFields environ before = (before', None)
    /\ bindField environ field = inl err
    /\ fields' = before' ++ field :: after.
Proof.
  split.
  - revert fields'. induction fields as [|f rest IH]; intros fields' H;
      [discriminate H|].
    cbn [bindFields] in H.
    destruct (bindField environ f) as [e|f1] eqn:F.
    + injection H as <- <-. now exists [], [], f, rest.
    + destruct (bindFields environ rest) as [rest' e] eqn:R.
      injection H as <- ->.
      destruct (IH _ eq_refl) as (before & before' & field & after & -> & Hb & Hf & ->).
      exists (f :: before), (f1 :: before'), field, after.
      repeat split; try assumption. cbn [bindFields]. now rewrite F, Hb.
  - intros (before & before' & field & after & -> & Hb & Hf & ->).
    rewrite (bindFields_app _ _ _ _ Hb). cbn [bindFields]. now rewrite Hf.
Qed.

(** X12. Whatever the outcome, the loop returns as many fields as it was
    given, each with the name, the tag and the type it had; a field that
    cannot be set or has no tag is returned as it was. *)
Theorem untagged_fields_untouched environ fields :
  Forall2 (fun field field' =>
             field' = reflect.Set_ field (reflect.Val field')
             /\ (reflect.CanSet field = false \/ reflect.TagConfig field = "" ->
                 field' = field))
    fields (fst (bindFields environ fields)).
Proof.
  assert (Hsame : forall l : list reflect.field,
            Forall2 (fun field field' =>
               field' = reflect.Set_ field (reflect.Val field')
               /\ (reflect.CanSet field = false \/ reflect.TagConfig field = "" ->
                   field' = field)) l l).
  { induction l as [|f l IH]; constructor; [|exact IH].
    split; [exact (eq_sym (Set_Val f)) | reflexivity]. }
  induction fields as [|f rest IH]; [constructor|].
  cbn [bindFields].
  destruct (bindField environ f) as [e|f1] eqn:F; [apply Hsame|].
  destruct (bindFields environ rest) as [rest' e]. cbn [fst] in *.
  constructor; [|exact IH].
  split; [apply (bindField_rebind _ _ _ F)|].
  unfold bindField in F. intros [Hset | Htag].
  - rewrite Hset in F. now injection F as <-.
  - rewrite Htag in F. destruct (negb (reflect.CanSet f)); now injection F as <-.
Qed.



(** X14. When [NODE_ENV] is set to anything but ["local"], the file
    [.env] plays no part: [LoadConfig] gives the same result whatever the
    file holds or whether it can be read, and the environment is as it
    was. *)
Theorem dotenv_only_when_local dotenv dotenv' st cfg :
  getEnv (environ st) ServiceEnvVarName EnvLocal <> "local" ->
  LoadConfig dotenv st cfg = LoadConfig dotenv' st cfg
  /\ environ (fst (LoadConfig dotenv st cfg)) = environ st.
Proof.
  intros Hsel. apply String.eqb_neq in Hsel.
  unfold LoadConfig, bootstrap. rewrite Hsel. split; [reflexivity|].
  destruct (loadConfigIntoStruct (environ st) (heap st) cfg) as [h [e|]];
    [reflexivity|].
  destruct (reflect.Elem h cfg) as [[l v]|]; [|reflexivity].
  now destruct (setEnv _ (reflect.Fields v)).
Qed.

Lemma dotenv_only_when_local_witness :
  LoadConfig None unboundState (reflect.IPtr (Some 0%nat))
    = LoadConfig (Some {[ "HOSTS" := "x:1" ]}) unboundState (reflect.IPtr (Some 0%nat))
  /\ environ (fst (LoadConfig None unboundState (reflect.IPtr (Some 0%nat))))
     = environ unboundState.
Proof.
  apply (dotenv_only_when_local None (Some {[ "HOSTS" := "x:1" ]}) unboundState
           (reflect.IPtr (Some 0%nat))).
  vm_compute. discriminate.
Defined.

(** X15. [LoadConfig] never changes or removes a variable of the
    environment: what was set before the call is set to the same value
    after it, whatever the file [.env] assigns and whatever the outcome. *)
Theorem variables_kept dotenv st cfg :
  environ st ⊆ environ (fst (LoadConfig dotenv st cfg)).
Proof.
  unfold LoadConfig.
  destruct (bootstrap dotenv _ (environ st)) as [environ'|] eqn:B; [|reflexivity].
  assert (Hsub : environ st ⊆ environ').
  { unfold bootstrap, godotenv.Load in B.
    destruct (String.eqb _ "local"); [|now injection B as <-].
    destruct dotenv as [assignments|]; [|discriminate B].
    injection B as <-. apply map_union_subseteq_l. }
  destruct (loadConfigIntoStruct environ' (heap st) cfg) as [h [e|]]; [exact Hsub|].
  destruct (reflect.Elem h cfg) as [[l v]|]; [|exact Hsub].
  now destruct (setEnv _ (reflect.Fields v)).
Qed.

Lemma setEnv_fieldEnv env fields fields' envField :
  setEnv env fields = Some fields' ->
  fieldEnv fields' = Some envField ->
  reflect.CanSet envField = true ->
  reflect.Kind_ envField = reflect.String ->
  reflect.Val envField = reflect.VString env.
Proof.
  unfold fieldEnv. revert fields'.
  induction fields as [|f rest IH]; intros fields'; cbn [setEnv].
  - intros [= <-]. discriminate.
  - destruct (String.eqb (reflect.Name f) "Env") eqn:N.
    + destruct (setEnvField env f) as [f2|] eqn:E; [|discriminate].
      cbn [fmap option_fmap option_map]. intros [= <-].
      destruct (setEnvField_rebind _ _ _ E) as [Hstatic _].
      cbn [List.find]. rewrite Hstatic at 1. cbn [reflect.Set_ reflect.Name].
      rewrite N. intros [= <-] Hset Hkind.
      unfold setEnvField in E.
      rewrite Hstatic in Hset, Hkind.
      unfold reflect.CanSet, reflect.Kind_ in Hset, Hkind.
      cbn [reflect.Set_ reflect.Exported reflect.Type_] in Hset, Hkind.
      unfold reflect.CanSet in E. rewrite Hset in E.
      destruct (decide _) as [_|K]; [|contradiction].
      now injection E as <-.
    + destruct (setEnv env rest) as [rest'|] eqn:E; [|discriminate].
      cbn [fmap option_fmap option_map]. intros [= <-].
      cbn [List.find]. rewrite N. now apply IH.
Qed.

(** X16. After a call of [LoadConfig] that returns no error, the field
    named [Env] of the struct, when it can be set and is of kind [String],
    holds the name of the deployment environment as read from [NODE_ENV]
    before the file [.env] was loaded (["local"] when it was not set), also
    when the field has a tag of its own. *)
Theorem Env_field_holds_environment_name dotenv st l st1 :
  LoadConfig dotenv st (reflect.IPtr (Some l)) = (st1, Return None) ->
  exists v,
    heap st1 !! l = Some v
    /\ forall envField,
         fieldEnv (reflect.Fields v) = Some envField ->
         reflect.CanSet envField = true ->
         reflect.Kind_ envField = reflect.String ->
         reflect.Val envField
           = reflect.VString (getEnv (environ st) ServiceEnvVarName EnvLocal).
Proof.
  unfold LoadConfig.
  destruct (bootstrap dotenv _ (environ st)) as [environ'|]; [|discriminate].
  destruct (loadConfigIntoStruct environ' (heap st) _) as [h [e|]]; [discriminate|].
  cbn [reflect.Elem]. destruct (h !! l) as [v|]; [|discriminate].
  cbn [fmap option_fmap option_map].
  destruct (setEnv _ (reflect.Fields v)) as [fields|] eqn:E; [|discriminate].
  intros [= <-]. cbn [heap]. eexists. split; [apply lookup_insert_eq|].
  cbn [reflect.Fields]. intros envField H1 H2 H3.
  exact (setEnv_fieldEnv _ _ _ _ E H1 H2 H3).
Qed.

Lemma Env_field_holds_environment_name_witness :
  exists v,
    heap {| environ := {[ "NODE_ENV" := "staging"; "APP_ENV" := "custom" ]};
            heap := structAt 0%nat [stringField "Env" "env:APP_ENV" "staging"] |}
      !! 0%nat = Some v
    /\ forall envField,
         fieldEnv (reflect.Fields v) = Some envField ->
         reflect.CanSet envField = true ->
         reflect.Kind_ envField = reflect.String ->
         reflect.Val envField
           = reflect.VString (getEnv (environ taggedEnvState) ServiceEnvVarName EnvLocal).
Proof.
  apply (Env_field_holds_environment_name None taggedEnvState 0%nat).
  vm_compute. reflexivity.
Defined.

Lemma loadConfigIntoStruct_idempotent_witness :
  loadConfigIntoStruct (environ boundState) (heap boundState) (reflect.IPtr (Some 0%nat))
    = (heap boundState, None).
Proof.
  apply (loadConfigIntoStruct_idempotent (environ unboundState)
           (structAt 0%nat (withEnv [] 8080 "staging"))).
  vm_compute. reflexivity.
Defined.

(** ** Transforms *)

Lemma length_append (a b : string) :
  String.length (a +:+ b) = (String.length a + String.length b)%nat.
Proof. induction a as [|c a IH]; [reflexivity|]. rewrite append_cons. cbn. now rewrite IH. Qed.

Lemma escapeByte_length c :
  (1 <= String.length (url.escapeByte c) <= 3)%nat.
Proof.
  unfold url.escapeByte.
  destruct (Ascii.eqb c " "); [cbn; lia|].
  destruct (url.shouldEscape c); cbn; lia.
Qed.

Lemma QueryEscape_length s :
  (String.length s <= String.length (url.QueryEscape s) <= 3 * String.length s)%nat.
Proof.
  induction s as [|c s IH]; [cbn; lia|].
  cbn [url.QueryEscape String.length]. rewrite length_append.
  pose proof (escapeByte_length c). lia.
Qed.

Lemma QueryEscape_app a b :
  url.QueryEscape (a +:+ b) = url.QueryEscape a +:+ url.QueryEscape b.
Proof.
  induction a as [|c a IH]; [reflexivity|].
  rewrite append_cons. cbn [url.QueryEscape]. now rewrite IH, append_assoc.
Qed.

Lemma QueryEscape_unchanged s :
  url.QueryEscape s = s <-> allBytes unreserved s = true.
Proof.
  unfold unreserved. induction s as [|c s IH]; [easy|].
  cbn [url.QueryEscape allBytes]. unfold url.escapeByte.
  destruct (Ascii.eqb_spec c " ") as [->|Hsp].
  - split; [intros H; discriminate H | intros H; discriminate H].
  - destruct (url.shouldEscape c) eqn:E; cbn [negb andb].
    + split; [|discriminate]. rewrite !append_cons, append_nil_l.
      intros [= _ H]. pose proof (QueryEscape_length s) as L.
      rewrite <- H in L at 1. cbn in L. lia.
    + rewrite append_cons, append_nil_l. rewrite <- IH.
      split; [now intros [= H] | now intros ->].
Qed.

(** X17. [url_escape] leaves a value as it is exactly when the value is
    made of letters, digits and [-], [_], [.], [~] only; in every case the
    result is at least as long as the value and at most three times as
    long. *)
Theorem url_escape_unchanged_iff_unreserved value :
  (applyTransform value TransformURLEscape = value <-> allBytes unreserved value = true)
  /\ (String.length value <= String.length (applyTransform value TransformURLEscape)
       <= 3 * String.length value)%nat.
Proof.
  change (applyTransform value TransformURLEscape) with (url.QueryEscape value).
  split; [apply QueryEscape_unchanged | apply QueryEscape_length].
Qed.

(** X18. Every transform acts on a value piece by piece: the transform of
    two values put together is the two transforms put together, so a value
    assembled from parts may be transformed before or after. *)
Theorem transform_of_concatenation transform a b :
  applyTransform (a +:+ b) transform
    = applyTransform a transform +:+ applyTransform b transform.
Proof.
  unfold applyTransform.
  destruct (String.eqb transform TransformURLEscape); [apply QueryEscape_app|].
  now destruct (String.eqb transform TransformHostsNoPorts).
Qed.

(** ** Witnesses of properties stated above *)

Lemma quoted_separator_witness :
  exists config, parseConfigTag ("sep:'" +:+ String ";" "'") = inr config
                 /\ Separator config = String ";" "".
Proof.
  apply (quoted_separator ";"); discriminate.
Defined.

(** X19. The loop returns no error exactly when every field is bound
    without error, and then each field is what its own binding gives: no
    field depends on another. *)
Theorem success_is_fieldwise environ fields fields' :
  bindFields environ fields = (fields', None) <->
  Forall2 (fun field field' => bindField environ field = inr field') fields fields'.
Proof.
  split.
  - revert fields'. induction fields as [|f rest IH]; intros fields' H.
    + injection H as <-. constructor.
    + cbn [bindFields] in H.
      destruct (bindField environ f) as [e|f1] eqn:F; [discriminate H|].
      destruct (bindFields environ rest) as [rest' e] eqn:R.
      injection H as <- ->. constructor; [exact F | now apply IH].
  - induction 1 as [|f f1 rest rest' F _ IH]; [reflexivity|].
    cbn [bindFields]. now rewrite F, IH.
Qed.
